(** * reducto: the tf-idf article summarizer ([src/article_summarizer.py])

    A shallow embedding of the class [ArticleSummarizer] and the properties
    its specification states about it.

    - Python floats are IEEE-754 binary64 numbers: Rocq's primitive [float].
    - Python ints are unbounded: [Z].
    - Dicts keyed by words are [gmap string Z], the set of words a
      [gset string].
    - The class body declares two mutable class attributes,
      [__sentence_scores = []] and [__word_frequency = {}].  They are created
      once, when the class statement runs, and every instance reaches them
      through [self] until an instance attribute of the same name is bound.
      They live in the state next to the caller's [document_frequency] dict,
      which [__init__] mutates in place.
    - The collaborators [tokenize_sentence], [tokenize_word] (module
      [tokenizer]) and [term_frequency], [inverse_document_frequency] (module
      [tf_idf]) are imported by the file and are not part of it: they are
      parameters of the development. *)

From Stdlib Require Import ZArith Floats Uint63 Ascii String.
From stdpp Require Import base option list gmap strings sorting.

#[local] Set Warnings "-inexact-float,-clear-no-such-hyp".
#[local] Open Scope Z_scope.

(** ** Python values and builtins *)

Module Py.

(** The exceptions the arithmetic of the file can raise. *)
Inductive exn : Type :=
| ZeroDivisionError
| OverflowError
| ValueError.

Inductive result (A : Type) : Type :=
| Ok (a : A)
| Raise (e : exn).
Arguments Ok {A} a.
Arguments Raise {A} e.

(** [float(z)]: the binary64 number nearest to the int [z]. *)
Definition float_of_int (z : Z) : float :=
  SF2Prim (binary_normalize prec emax z 0 false).

(** [a / b] on two ints (true division).  CPython returns the correctly
    rounded quotient; below 2^53 both operands convert exactly and this is
    the binary64 division of the conversions. *)
Definition int_truediv (a b : Z) : result float :=
  if b =? 0 then Raise ZeroDivisionError
  else Ok (float_of_int a / float_of_int b)%float.

(** [x / n] for a float [x] and an int [n]. *)
Definition float_truediv (x : float) (n : Z) : result float :=
  if n =? 0 then Raise ZeroDivisionError
  else Ok (x / float_of_int n)%float.

(** The numbers that are neither infinite nor NaN. *)
Definition finite_or_zero (x : spec_float) : Prop :=
  match x with
  | S754_zero _ | S754_finite _ _ _ => True
  | S754_infinity _ | S754_nan => False
  end.

(** [int(x)]: truncation toward zero; raises on infinities and NaN. *)
Definition int_of_float (x : float) : result Z :=
  match Prim2SF x with
  | S754_nan => Raise ValueError
  | S754_infinity _ => Raise OverflowError
  | S754_zero _ => Ok 0
  | S754_finite s m e =>
      let a := if 0 <=? e then Z.pos m * 2 ^ e else Z.pos m / 2 ^ (- e) in
      Ok (if s then - a else a)
  end.

(** [l[0:n]]: a negative [n] counts from the end, and both ends are
    clamped to the list. *)
Definition slice_to {A} (l : list A) (n : Z) : list A :=
  if n <? 0 then take (Z.to_nat (Z.max 0 (Z.of_nat (length l) + n))) l
  else take (Z.to_nat n) l.

(** [enumerate(l)]. *)
Definition enumerate {A} (l : list A) : list (Z * A) :=
  zip (Z.of_nat <$> seq 0 (length l)) l.

(** *** [sorted]

    [sorted(l, key=k, reverse=r)] compares keys with [<] only and is
    stable.  With [reverse=True] CPython reverses the list, sorts it
    ascending and stably, and reverses the result, which keeps equal keys
    in their original order.  The merge strategy is not modelled: the
    ascending pass is a stable insertion sort, which produces the same list
    whenever [<] orders the keys totally (no NaN among them).  With a NaN
    key CPython may return another order, also of the equal keys: what is
    stated of the order of the result is stated for keys that are numbers. *)
Section Sorted.
Context {A : Type} (key : A → float).

Fixpoint insort (x : A) (l : list A) : list A :=
  match l with
  | [] => [x]
  | y :: r => if (key y <? key x)%float then y :: insort x r else x :: l
  end.

Fixpoint sort_ascending (l : list A) : list A :=
  match l with
  | [] => []
  | x :: r => insort x (sort_ascending r)
  end.

Definition sorted (reverse : bool) (l : list A) : list A :=
  if reverse then rev (sort_ascending (rev l)) else sort_ascending l.
End Sorted.

(** The elements of [l] whose key [==] the number [v], in list order. *)
Definition with_key {A} (key : A → float) (v : float) (l : list A) : list A :=
  List.filter (λ a, key a =? v)%float l.

(** [operator.itemgetter(0)] on a [[score, sentence]] pair. *)
Definition itemgetter0 {A B} (p : A * B) : A := p.1.

End Py.

Export Py.

(** ** The state a construction runs in *)

(** A [[score, sentence]] pair of [__sentence_scores].  In Python the pair is
    a two-element list, shared between the class-level list and the sorted
    list an instance binds; no method reads an instance's pairs after its
    construction, so the instance keeps them by value. *)
Definition cell : Type := float * string.

(** The attributes of one instance.  [sentence_scores] is [None] until
    [__init__] binds [self.__sentence_scores]; until then the name resolves to
    the class attribute. *)
Record instance : Type := mk_instance {
  sentences : list string;
  document_number : Z;
  sentence_scores : option (list cell);
  ranked_sentences : list string
}.

(** What an object has when [__init__] starts: no attribute bound. *)
Definition blank : instance :=
  {| sentences := []; document_number := 0;
     sentence_scores := None; ranked_sentences := [] |}.

Record state : Type := mk_state {
  (** [ArticleSummarizer.__sentence_scores], the class attribute *)
  cls_sentence_scores : list cell;
  (** [ArticleSummarizer.__word_frequency], the class attribute *)
  cls_word_frequency : gmap string Z;
  (** the dict the caller passes as [document_frequency]; the instance keeps
      the reference, so the object itself is part of the state *)
  document_frequency : gmap string Z;
  (** the instance the running method is bound to *)
  self : instance
}.

(** The state of a process in which the class statement has just run and the
    caller starts from the corpus table [df]. *)
Definition initial (df : gmap string Z) : state :=
  {| cls_sentence_scores := []; cls_word_frequency := ∅;
     document_frequency := df; self := blank |}.

Definition set_self (o : instance) (st : state) : state :=
  {| cls_sentence_scores := cls_sentence_scores st;
     cls_word_frequency := cls_word_frequency st;
     document_frequency := document_frequency st;
     self := o |}.

Definition set_sentences (l : list string) (st : state) : state :=
  set_self {| sentences := l;
              document_number := document_number (self st);
              sentence_scores := sentence_scores (self st);
              ranked_sentences := ranked_sentences (self st) |} st.

Definition set_document_number (n : Z) (st : state) : state :=
  set_self {| sentences := sentences (self st);
              document_number := n;
              sentence_scores := sentence_scores (self st);
              ranked_sentences := ranked_sentences (self st) |} st.

Definition set_ranked_sentences (l : list string) (st : state) : state :=
  set_self {| sentences := sentences (self st);
              document_number := document_number (self st);
              sentence_scores := sentence_scores (self st);
              ranked_sentences := l |} st.

(** [self.__sentence_scores = l] binds the instance attribute. *)
Definition bind_sentence_scores (l : list cell) (st : state) : state :=
  set_self {| sentences := sentences (self st);
              document_number := document_number (self st);
              sentence_scores := Some l;
              ranked_sentences := ranked_sentences (self st) |} st.

(** Reading [self.__sentence_scores]: the instance attribute when bound, the
    class attribute otherwise. *)
Definition resolve_sentence_scores (st : state) : list cell :=
  match sentence_scores (self st) with
  | Some l => l
  | None => cls_sentence_scores st
  end.

(** Mutating the list [self.__sentence_scores] resolves to. *)
Definition mutate_sentence_scores (f : list cell → list cell) (st : state) : state :=
  match sentence_scores (self st) with
  | Some l => bind_sentence_scores (f l) st
  | None =>
      {| cls_sentence_scores := f (cls_sentence_scores st);
         cls_word_frequency := cls_word_frequency st;
         document_frequency := document_frequency st;
         self := self st |}
  end.

(** [self.__word_frequency] is never bound on an instance: the name always
    resolves to the class attribute. *)
Definition mutate_word_frequency (f : gmap string Z → gmap string Z) (st : state) : state :=
  {| cls_sentence_scores := cls_sentence_scores st;
     cls_word_frequency := f (cls_word_frequency st);
     document_frequency := document_frequency st;
     self := self st |}.

Definition mutate_document_frequency (f : gmap string Z → gmap string Z) (st : state) : state :=
  {| cls_sentence_scores := cls_sentence_scores st;
     cls_word_frequency := cls_word_frequency st;
     document_frequency := f (document_frequency st);
     self := self st |}.

(** [if word not in d: d[word] = 1 else: d[word] += 1] *)
Definition increment (word : string) (d : gmap string Z) : gmap string Z :=
  match d !! word with
  | None => <[word := 1]> d
  | Some c => <[word := c + 1]> d
  end.

(** ** Statements: state and exceptions *)

(** A statement runs on a state and either yields a value or raises; what it
    mutated before raising stays mutated. *)
Definition M (A : Type) : Type := state → result A * state.

#[global] Instance M_ret : MRet M := λ A a st, (Ok a, st).

#[global] Instance M_bind : MBind M := λ A B f m st,
  match m st with
  | (Ok a, st') => f a st'
  | (Raise e, st') => (Raise e, st')
  end.

Definition read {A} (f : state → A) : M A := λ st, (Ok (f st), st).
Definition modify (f : state → state) : M unit := λ st, (Ok (), f st).
Definition lift {A} (r : result A) : M A := λ st, (r, st).

(** [for x in xs: body], the body updating the local [acc]. *)
Fixpoint foldM {A B} (body : B → A → M B) (acc : B) (xs : list A) : M B :=
  match xs with
  | [] => mret acc
  | x :: r => acc' ← body acc x; foldM body acc' r
  end.

(** [for x in xs: body] *)
Fixpoint for_each {A} (xs : list A) (body : A → M unit) : M unit :=
  match xs with
  | [] => mret ()
  | x :: r => body x;; for_each r body
  end.

(** ** The class *)

(** The weight of a normalized position (the if-chain of
    [__weigh_sentences_by_position]); the values are taken from a paper by
    Yohei Seki. *)
Definition position_weight (distribution : float) : float :=
  (if (0 <=? distribution) && (distribution <? 0.1) then 0.17
   else if (0.1 <=? distribution) && (distribution <? 0.2) then 0.23
   else if (0.2 <=? distribution) && (distribution <? 0.3) then 0.14
   else if (0.3 <=? distribution) && (distribution <? 0.4) then 0.08
   else if (0.4 <=? distribution) && (distribution <? 0.5) then 0.05
   else if (0.5 <=? distribution) && (distribution <? 0.6) then 0.04
   else if (0.6 <=? distribution) && (distribution <? 0.7) then 0.06
   else if (0.7 <=? distribution) && (distribution <? 0.8) then 0.04
   else if (0.8 <=? distribution) && (distribution <? 0.9) then 0.04
   else 0.15)%float.

(** The collaborators the file imports from [tokenizer] and [tf_idf].
    [only_noun] is the keyword argument of [tokenize_word]; the class always
    passes [True]. *)
Class Collaborators : Type := {
  tokenize_sentence : string → list string;
  tokenize_word : string → bool → list string;
  tf : string → gmap string Z → float;
  idf : string → Z → gmap string Z → float
}.

Section ArticleSummarizer.
Context `{Collaborators}.

(** [__word_score]: a word's tf-idf score. *)
Definition __word_score (word : string) : M float :=
  st ← read id;
  mret (tf word (cls_word_frequency st)
        * idf word (document_number (self st)) (document_frequency st))%float.

(** [__sentence_score]: a sentence's average tf-idf score.  [return 0] and
    [total = 0] are the int 0, which multiplies, adds and compares as the
    float 0.0. *)
Definition __sentence_score (sentence : string) : M float :=
  let words := tokenize_word sentence true in
  if bool_decide (words = []) then mret 0%float
  else
    total ← foldM (λ total word,
               score ← __word_score word;
               mret (total + score)%float) 0%float words;
    lift (float_truediv total (Z.of_nat (length words))).

(** [__weigh_sentences_by_position]: [score *= weight] on every pair of the
    list [self.__sentence_scores] resolves to. *)
Definition __weigh_sentences_by_position : M unit :=
  scores ← read resolve_sentence_scores;
  for_each (enumerate scores) (λ '(index, _),
    len ← read (λ st, Z.of_nat (length (resolve_sentence_scores st)));
    distribution ← lift (int_truediv index len);
    let weight := position_weight distribution in
    modify (mutate_sentence_scores
              (alter (λ c : cell, ((c.1 * weight)%float, c.2)) (Z.to_nat index)))).

Definition __init__ (article : string) (document_number : Z) : M unit :=
  modify (set_sentences (tokenize_sentence article));;
  modify (set_document_number (document_number + 1));;
  (* self.document_frequency = document_frequency keeps the reference *)
  sentences ← read (λ st, sentences (self st));
  word_set ← foldM (λ word_set sentence,
               let words := tokenize_word sentence true in
               foldM (λ (word_set : gset string) word,
                  modify (mutate_word_frequency (increment word));;
                  mret (word_set ∪ {[word]})) word_set words) ∅ sentences;
  for_each (elements word_set) (λ word,
    modify (mutate_document_frequency (increment word)));;
  for_each sentences (λ sentence,
    score ← __sentence_score sentence;
    modify (mutate_sentence_scores (λ l, l ++ [(score, sentence)])));;
  __weigh_sentences_by_position;;
  scores ← read resolve_sentence_scores;
  modify (bind_sentence_scores (sorted itemgetter0 true scores));;
  scores ← read resolve_sentence_scores;
  modify (set_ranked_sentences (snd <$> scores)).

(** [ArticleSummarizer(article, document_number, document_frequency)]: a
    new object, then [__init__] on it. *)
Definition construct (article : string) (document_number : Z) : M unit :=
  modify (set_self blank);;
  __init__ article document_number.

(** [get_top_sentences]: the top n% of the ranked sentences, in article
    order. *)
Definition get_top_sentences (percentage : float) : M (list string) :=
  sentences ← read (λ st, sentences (self st));
  n ← lift (int_of_float (percentage / 100 * float_of_int (Z.of_nat (length sentences))));
  ranked_sentences ← read (λ st, ranked_sentences (self st));
  mret (filter (λ sentence, sentence ∈ slice_to ranked_sentences n) sentences).

End ArticleSummarizer.

(** ** Stand-ins for the collaborators

    Used to run the class on concrete articles. *)

Module Toy.

#[local] Open Scope string_scope.

Definition is_letter (c : ascii) : bool :=
  let n := nat_of_ascii c in
  ((65 <=? n)%nat && (n <=? 90)%nat) || ((97 <=? n)%nat && (n <=? 122)%nat).

Fixpoint split_sentences (s cur : string) : list string :=
  match s with
  | "" => if bool_decide (cur = "") then [] else [cur]
  | String c r =>
      if bool_decide (c = "."%char) then (cur +:+ ".") :: split_sentences r ""
      else if bool_decide (c = " "%char) && bool_decide (cur = "")
           then split_sentences r ""
           else split_sentences r (cur +:+ String c "")
  end.

Fixpoint split_words (s cur : string) : list string :=
  match s with
  | "" => if bool_decide (cur = "") then [] else [cur]
  | String c r =>
      if is_letter c then split_words r (cur +:+ String c "")
      else if bool_decide (cur = "") then split_words r ""
           else cur :: split_words r ""
  end.

(** Modelled from the spec: [tokenizer.tokenize_sentence] is missing; the
    spec (section 6) asks for an order-preserving split of the article into
    sentences.  A sentence ends at a full stop, which it keeps. *)
Definition tokenize_sentence (article : string) : list string :=
  split_sentences article "".

(** Modelled from the spec: [tokenizer.tokenize_word] is missing; the spec
    (section 6) asks for the word tokens of a sentence, filtered to nouns
    when [only_noun] is set.  Part-of-speech tagging has no counterpart
    here: the tokens are the maximal runs of letters, all kept. *)
Definition tokenize_word (sentence : string) (only_noun : bool) : list string :=
  split_words sentence "".

(** Modelled from the spec: [tf_idf.term_frequency] is missing; the spec
    (section 4.1, step 5) gives the word's count in the table over the total
    count of the table. *)
Definition tf (word : string) (word_frequency : gmap string Z) : float :=
  let count := default 0 (word_frequency !! word) in
  let total := map_fold (λ _ c total, c + total) 0 word_frequency in
  (float_of_int count / float_of_int total)%float.

(** Modelled from the spec: [tf_idf.inverse_document_frequency] is missing;
    the spec (section 4.1, step 5) asks for a function that decreases with
    the number of documents containing the word and is defined for a word
    the table lacks.  The ratio below has both properties and stays within
    binary64 arithmetic. *)
Definition idf (word : string) (document_number : Z)
    (document_frequency : gmap string Z) : float :=
  let containing := default 0 (document_frequency !! word) in
  (float_of_int document_number / float_of_int (1 + containing)%Z)%float.

Definition collaborators : Collaborators :=
  Build_Collaborators tokenize_sentence tokenize_word tf idf.

Definition construct : string → Z → M unit :=
  @construct collaborators.

(** The example article of the spec (section 8). *)
Definition cats : string :=
  "Cats chase mice. Mice run fast. Dogs chase cats. Birds fly high.".

(** A second article; its last sentence has no word token. *)
Definition dogs : string := "Dogs bark. 1 2 3.".

(** The process after [ArticleSummarizer(cats, 0, document_frequency)] with
    an empty [document_frequency] ... *)
Definition after_cats : state := (construct cats 0 (initial ∅)).2.

(** ... and after a following [ArticleSummarizer(dogs, 1, document_frequency)]
    with the same dict. *)
Definition after_dogs : state := (construct dogs 1 after_cats).2.

(** [ArticleSummarizer(dogs, 1, document_frequency)] with the same corpus
    table, in a process that has constructed no summarizer before. *)
Definition only_dogs : state :=
  (construct dogs 1 (initial (document_frequency after_cats))).2.

End Toy.

(** ** What the loops of [__init__] compute *)

(** The number of times [w] occurs in [ws]. *)
Definition occurrences (w : string) (ws : list string) : Z :=
  Z.of_nat (length (filter (w =.) ws)).

(** [increment] for every word of [ws], in order. *)
Definition count_all (ws : list string) (d : gmap string Z) : gmap string Z :=
  foldl (λ d w, increment w d) d ws.

(** The position weights applied to a list of pairs: the pair at index [i]
    of [l] has its score multiplied by the weight of [i / len(l)]. *)
Definition weighted (l : list cell) : list cell :=
  imap (λ i c,
    let distribution :=
      (float_of_int (Z.of_nat i) / float_of_int (Z.of_nat (length l)))%float in
    ((c.1 * position_weight distribution)%float, c.2)) l.

Section ClosedForms.
Context `{Collaborators}.

(** The noun tokens of all sentences, in article order. *)
Definition article_words (sentences : list string) : list string :=
  concat ((λ sentence, tokenize_word sentence true) <$> sentences).

(** The value [__sentence_score] returns when the word-frequency table is
    [wf], [self.document_number] is [n] and the corpus table is [df]. *)
Definition raw_score (wf : gmap string Z) (n : Z) (df : gmap string Z)
    (sentence : string) : float :=
  let words := tokenize_word sentence true in
  if bool_decide (words = []) then 0%float
  else (foldl (λ total word, total + tf word wf * idf word n df) 0 words
        / float_of_int (Z.of_nat (length words)))%float.

(** The state a construction on [article] with document count [d] ends in,
    when it starts in [st]. *)
Definition constructed (article : string) (d : Z) (st : state) : state :=
  let ss := tokenize_sentence article in
  let words := article_words ss in
  let wf := count_all words (cls_word_frequency st) in
  let df := count_all (elements (list_to_set words : gset string))
              (document_frequency st) in
  let cells :=
    weighted (cls_sentence_scores st
              ++ ((λ s, (raw_score wf (d + 1) df s, s)) <$> ss)) in
  let ranked := sorted itemgetter0 true cells in
  {| cls_sentence_scores := cells;
     cls_word_frequency := wf;
     document_frequency := df;
     self := {| sentences := ss;
                document_number := d + 1;
                sentence_scores := Some ranked;
                ranked_sentences := snd <$> ranked |} |}.
End ClosedForms.

(** ** The weight table of the specification

    Section 4.2 of the spec gives the weights as a table of half-open buckets
    [[lo, hi)] with a default for everything else. *)

Definition weight_table : list (float * float * float) :=
  [ (0, 0.1, 0.17); (0.1, 0.2, 0.23); (0.2, 0.3, 0.14); (0.3, 0.4, 0.08);
    (0.4, 0.5, 0.05); (0.5, 0.6, 0.04); (0.6, 0.7, 0.06); (0.7, 0.8, 0.04);
    (0.8, 0.9, 0.04) ]%float.

Definition default_weight : float := 0.15%float.

(** The weight of the first bucket that holds [position], the default when
    none does. *)
Definition table_weight (position : float) : float :=
  match List.find (λ '(lo, hi, _), (lo <=? position) && (position <? hi))%float
          weight_table with
  | Some (_, _, weight) => weight
  | None => default_weight
  end.

(** The bucket of the exact quotient [i / N], by integer arithmetic: bucket
    [k] holds it when [k/10 ≤ i/N < (k+1)/10]. *)
Definition exact_weight (i N : Z) : float :=
  let weights := [0.17; 0.23; 0.14; 0.08; 0.05; 0.04; 0.06; 0.04; 0.04]%float in
  default default_weight (weights !! Z.to_nat (10 * i / N)).

(** Whether the float computation of the weight agrees with [exact_weight]
    for every index of every list of at most [bound] pairs. *)
Definition weights_exact_upto (bound : nat) : bool :=
  forallb (λ N,
    forallb (λ i,
      PrimFloat.Leibniz.eqb
        (position_weight (float_of_int (Z.of_nat i) / float_of_int (Z.of_nat N)))
        (exact_weight (Z.of_nat i) (Z.of_nat N)))
      (seq 0 N))
    (seq 0 (S bound)).

(** ** The order of the scores

    [sorted] compares scores with [<].  The definitions below say what it
    means for a list to be in order, and place every binary64 number other
    than NaN on a line: sign class, then exponent, then mantissa. *)

(** [x == x]: false for NaN only. *)
Definition is_number (x : float) : bool := (x =? x)%float.

Definition order_key (x : spec_float) : Z * Z * Z :=
  match x with
  | S754_infinity true => (-2, 0, 0)
  | S754_finite true m e => (-1, - e, - Z.pos m)
  | S754_zero _ | S754_nan => (0, 0, 0)
  | S754_finite false m e => (1, e, Z.pos m)
  | S754_infinity false => (2, 0, 0)
  end.

Definition key_lt (a b : Z * Z * Z) : Prop :=
  a.1.1 < b.1.1
  ∨ (a.1.1 = b.1.1 ∧ (a.1.2 < b.1.2 ∨ (a.1.2 = b.1.2 ∧ a.2 < b.2))).

(** [b] does not stand before [a] by the key: [not (key(b) < key(a))]. *)
Definition ascending {A} (key : A → float) (a b : A) : Prop :=
  (key b <? key a)%float = false.

(** [not (key(a) < key(b))]. *)
Definition descending {A} (key : A → float) (a b : A) : Prop :=
  (key a <? key b)%float = false.

(** The sum of the counts of a table. *)
Definition total_count (d : gmap string Z) : Z :=
  map_fold (λ _ c total, c + total) 0 d.

(** ** Builtins: slices, enumeration, sorting *)

Lemma slice_to_zero {A} (l : list A) : slice_to l 0 = [].
Proof. reflexivity. Qed.

Lemma slice_to_all {A} (l : list A) (n : Z) :
  Z.of_nat (length l) ≤ n → slice_to l n = l.
Proof.
  intros Hn. unfold slice_to.
  destruct (Z.ltb_spec n 0) as [Hneg|_]; [lia|].
  apply take_ge. lia.
Qed.

Lemma slice_to_negative {A} (l : list A) (n : Z) :
  n < 0 → slice_to l n = take (length l - Z.to_nat (- n)) l.
Proof.
  intros Hn. unfold slice_to.
  destruct (Z.ltb_spec n 0) as [_|?]; [|lia].
  f_equal. lia.
Qed.

Section SortedFacts.
Context {A : Type} (key : A → float).

Lemma insort_Permutation (x : A) (l : list A) : insort key x l ≡ₚ x :: l.
Proof.
  induction l as [|y r IH]; simpl; [done|].
  destruct (key y <? key x)%float; [|done].
  rewrite IH. apply Permutation_swap.
Qed.

Lemma sort_ascending_Permutation (l : list A) : sort_ascending key l ≡ₚ l.
Proof.
  induction l as [|x r IH]; simpl; [done|].
  by rewrite insort_Permutation, IH.
Qed.

Lemma sorted_Permutation (reverse : bool) (l : list A) :
  sorted key reverse l ≡ₚ l.
Proof.
  unfold sorted. destruct reverse.
  - etrans; [symmetry; apply Permutation_rev|].
    etrans; [apply sort_ascending_Permutation|].
    symmetry. apply Permutation_rev.
  - apply sort_ascending_Permutation.
Qed.

Lemma length_sorted (reverse : bool) (l : list A) :
  length (sorted key reverse l) = length l.
Proof. apply Permutation_length, sorted_Permutation. Qed.
End SortedFacts.

(** ** Comparisons of binary64 numbers

    Python's [==] and [<] on floats are [=?] and [<?]: [0.0 == -0.0], and a
    NaN is neither equal to nor less than anything. *)

Lemma SFcompare_refl (x : spec_float) :
  x ≠ S754_nan → SFcompare x x = Some Eq.
Proof.
  destruct x as [s|s| |s m e]; simpl; try done.
  - by destruct s.
  - intros _. destruct s; rewrite Z.compare_refl, Pos.compare_cont_refl; done.
Qed.

Lemma SFcompare_Eq_inv (x y : spec_float) :
  SFcompare x y = Some Eq →
  (∃ s s', x = S754_zero s ∧ y = S754_zero s') ∨ (x = y ∧ x ≠ S754_nan).
Proof.
  destruct x as [s|s| |s m e], y as [s'|s'| |s' m' e']; simpl;
    try discriminate; try (destruct s; discriminate);
    try (destruct s'; discriminate).
  - eauto.
  - destruct s, s'; try discriminate; intros _; right; done.
  - intros H. right. split; [|done].
    assert (s = s' ∧ (e ?= e') = Eq ∧ Pos.compare_cont Eq m m' = Eq) as (-> & He & Hm).
    { destruct s, s'; try discriminate;
        destruct (e ?= e'); try discriminate;
        destruct (Pos.compare_cont Eq m m'); try discriminate; done. }
    apply Z.compare_eq in He. apply Pos.compare_eq in Hm. by subst.
Qed.

Lemma SFcompare_Eq_join (x y v : spec_float) :
  SFcompare x v = Some Eq → SFcompare y v = Some Eq → SFcompare y x = Some Eq.
Proof.
  intros Hx Hy.
  destruct (SFcompare_Eq_inv _ _ Hx) as [(s & s' & -> & ->)|[-> Hn]],
           (SFcompare_Eq_inv _ _ Hy) as [(t & t' & -> & Ht)|[-> Hn']];
    try done; by apply SFcompare_refl.
Qed.

(** Two numbers equal to a third are not strictly ordered. *)
Lemma float_eq_not_lt (x y v : float) :
  (x =? v)%float = true → (y =? v)%float = true → (y <? x)%float = false.
Proof.
  rewrite !FloatAxioms.eqb_spec, FloatAxioms.ltb_spec. unfold SFeqb, SFltb.
  intros Hx Hy.
  assert (SFcompare (Prim2SF x) (Prim2SF v) = Some Eq) as Hx'
    by (destruct (SFcompare (Prim2SF x) (Prim2SF v)) as [[]|]; done).
  assert (SFcompare (Prim2SF y) (Prim2SF v) = Some Eq) as Hy'
    by (destruct (SFcompare (Prim2SF y) (Prim2SF v)) as [[]|]; done).
  by rewrite (SFcompare_Eq_join _ _ _ Hx' Hy').
Qed.

(** *** Stability of [sorted] *)

Section SortedStable.
Context {A : Type} (key : A → float) (v : float).

Lemma with_key_cons (x : A) (l : list A) :
  with_key key v (x :: l) =
  if (key x =? v)%float then x :: with_key key v l else with_key key v l.
Proof. reflexivity. Qed.

Lemma with_key_app (l k : list A) :
  with_key key v (l ++ k) = with_key key v l ++ with_key key v k.
Proof. apply List.filter_app. Qed.

Lemma with_key_rev (l : list A) :
  with_key key v (rev l) = rev (with_key key v l).
Proof.
  induction l as [|x r IH]; simpl; [done|].
  rewrite with_key_app, IH, !with_key_cons.
  destruct (key x =? v)%float; simpl; [done|]. by rewrite app_nil_r.
Qed.

Lemma with_key_insort (x : A) (l : list A) :
  with_key key v (insort key x l) = with_key key v (x :: l).
Proof.
  induction l as [|y r IH]; [done|].
  simpl insort. destruct (key y <? key x)%float eqn:Hlt; [|done].
  rewrite with_key_cons, IH, !with_key_cons.
  destruct (key x =? v)%float eqn:Hx, (key y =? v)%float eqn:Hy; try done.
  by rewrite (float_eq_not_lt _ _ _ Hx Hy) in Hlt.
Qed.

Lemma with_key_sort_ascending (l : list A) :
  with_key key v (sort_ascending key l) = with_key key v l.
Proof.
  induction l as [|x r IH]; [done|].
  simpl sort_ascending. by rewrite with_key_insort, !with_key_cons, IH.
Qed.

(** The model [sorted] never moves an element past one with an equal key;
    so does CPython's when no key is a NaN. *)
Lemma with_key_sorted (reverse : bool) (l : list A) :
  with_key key v (sorted key reverse l) = with_key key v l.
Proof.
  unfold sorted. destruct reverse.
  - by rewrite with_key_rev, with_key_sort_ascending, with_key_rev, rev_involutive.
  - apply with_key_sort_ascending.
Qed.
End SortedStable.

(** ** Counting words in a dict *)

Lemma lookup_increment (x w : string) (d : gmap string Z) :
  increment x d !! w =
  if decide (x = w) then Some (default 0 (d !! w) + 1) else d !! w.
Proof.
  unfold increment. case_decide as Hxw.
  - subst. destruct (d !! w) as [c|] eqn:Hd; by rewrite lookup_insert_eq.
  - destruct (d !! x) as [c|]; by rewrite lookup_insert_ne.
Qed.

Lemma occurrences_nil (w : string) : occurrences w [] = 0.
Proof. reflexivity. Qed.

Lemma occurrences_cons (w x : string) (ws : list string) :
  occurrences w (x :: ws) = (if decide (w = x) then 1 else 0) + occurrences w ws.
Proof.
  unfold occurrences. rewrite filter_cons.
  case_decide; simpl; lia.
Qed.

Lemma occurrences_nonneg (w : string) (ws : list string) : 0 ≤ occurrences w ws.
Proof. unfold occurrences. lia. Qed.

Lemma occurrences_app (w : string) (ws vs : list string) :
  occurrences w (ws ++ vs) = occurrences w ws + occurrences w vs.
Proof. unfold occurrences. rewrite filter_app, length_app. lia. Qed.

Lemma occurrences_not_elem_of (w : string) (ws : list string) :
  w ∉ ws → occurrences w ws = 0.
Proof.
  induction ws as [|x ws IH]; [done|].
  rewrite not_elem_of_cons, occurrences_cons. intros [Hne Hnin].
  rewrite IH by done. by rewrite decide_False.
Qed.

Lemma occurrences_elem_of (w : string) (ws : list string) :
  w ∈ ws → 0 < occurrences w ws.
Proof.
  induction ws as [|x ws IH]; [by intros ?%elem_of_nil|].
  rewrite elem_of_cons, occurrences_cons.
  pose proof (occurrences_nonneg w ws).
  intros [->|Hin].
  - rewrite decide_True by done. lia.
  - specialize (IH Hin). case_decide; lia.
Qed.

Lemma occurrences_NoDup (w : string) (ws : list string) :
  NoDup ws → w ∈ ws → occurrences w ws = 1.
Proof.
  induction 1 as [|x ws Hx Hnd IH]; [by intros ?%elem_of_nil|].
  rewrite elem_of_cons, occurrences_cons. intros [->|Hin].
  - rewrite decide_True by done. rewrite occurrences_not_elem_of by done. lia.
  - rewrite decide_False by (intros ->; done). rewrite IH by done. lia.
Qed.

(** After counting the words [ws] into [d], a word that occurs in [ws] has
    its old count (0 when absent) plus its number of occurrences; every other
    entry is as it was. *)
Lemma lookup_count_all (ws : list string) (d : gmap string Z) (w : string) :
  count_all ws d !! w =
  if decide (w ∈ ws) then Some (default 0 (d !! w) + occurrences w ws)
  else d !! w.
Proof.
  unfold count_all. revert d. induction ws as [|x ws IH]; intros d.
  - by case_decide as H; [apply elem_of_nil in H|].
  - cbn [foldl]. rewrite IH, lookup_increment, occurrences_cons.
    destruct (decide (w ∈ ws)) as [Hin|Hnin].
    + rewrite (decide_True (P := w ∈ x :: ws)) by (by right).
      destruct (decide (x = w)) as [->|Hne].
      * rewrite decide_True by done. simpl. f_equal; lia.
      * rewrite decide_False by done. f_equal; lia.
    + destruct (decide (x = w)) as [->|Hne].
      * rewrite (decide_True (P := w ∈ w :: ws)) by (by left).
        rewrite decide_True by done.
        rewrite occurrences_not_elem_of by done. simpl. f_equal; lia.
      * rewrite (decide_False (P := w ∈ x :: ws)); [done|].
        rewrite not_elem_of_cons. done.
Qed.

(** ** Running statements *)

Lemma run_bind {A B} (m : M A) (f : A → M B) (st st' : state) (a : A) :
  m st = (Ok a, st') → (m ≫= f) st = f a st'.
Proof. unfold mbind, M_bind. by intros ->. Qed.

Lemma run_bind_raise {A B} (m : M A) (f : A → M B) (st st' : state) (e : exn) :
  m st = (Raise e, st') → (m ≫= f) st = (Raise e, st').
Proof. unfold mbind, M_bind. by intros ->. Qed.

Lemma foldM_closed {A B} (body : B → A → M B) (g : B → A → B)
    (h : A → state → state) (acc : B) (xs : list A) (st : state) :
  (∀ acc x st, body acc x st = (Ok (g acc x), h x st)) →
  foldM body acc xs st = (Ok (foldl g acc xs), foldl (λ st x, h x st) st xs).
Proof.
  intros Hbody. revert acc st.
  induction xs as [|x xs IH]; intros acc st; [done|].
  cbn [foldM foldl]. erewrite run_bind by apply Hbody. apply IH.
Qed.

Lemma for_each_closed {A} (body : A → M unit) (h : A → state → state)
    (xs : list A) (st : state) :
  (∀ x st, body x st = (Ok (), h x st)) →
  for_each xs body st = (Ok (), foldl (λ st x, h x st) st xs).
Proof.
  intros Hbody. revert st.
  induction xs as [|x xs IH]; intros st; [done|].
  cbn [for_each foldl]. erewrite run_bind by apply Hbody. apply IH.
Qed.

Lemma foldM_reading {A B} (body : B → A → M B) (g : B → A → B)
    (acc : B) (xs : list A) (st : state) :
  (∀ acc x, body acc x st = (Ok (g acc x), st)) →
  foldM body acc xs st = (Ok (foldl g acc xs), st).
Proof.
  intros Hbody. revert acc.
  induction xs as [|x xs IH]; intros acc; [done|].
  cbn [foldM foldl]. erewrite run_bind by apply Hbody. apply IH.
Qed.

Lemma foldl_concat {A B} (f : B → A → B) (b : B) (ls : list (list A)) :
  foldl (λ b l, foldl f b l) b ls = foldl f b (concat ls).
Proof.
  revert b. induction ls as [|l ls IH]; intros b; [done|].
  simpl. by rewrite foldl_app, IH.
Qed.

Lemma foldl_fmap' {A B C} (f : B → A → B) (g : C → A) (b : B) (l : list C) :
  foldl (λ b c, f b (g c)) b l = foldl f b (g <$> l).
Proof. revert b. induction l as [|c l IH]; intros b; [done|]. simpl. apply IH. Qed.

Lemma foldl_add_words (acc : gset string) (ws : list string) :
  foldl (λ (s : gset string) w, s ∪ {[w]}) acc ws = acc ∪ list_to_set ws.
Proof.
  revert acc. induction ws as [|w ws IH]; intros acc; simpl.
  - set_solver.
  - rewrite IH. set_solver.
Qed.

Lemma count_word_frequency (a : list cell) (wf df : gmap string Z) (o : instance)
    (ws : list string) :
  foldl (λ st w, mutate_word_frequency (increment w) st) (mk_state a wf df o) ws
  = mk_state a (count_all ws wf) df o.
Proof.
  unfold count_all. revert wf. induction ws as [|w ws IH]; intros wf; [done|].
  simpl. apply IH.
Qed.

Lemma count_document_frequency (a : list cell) (wf df : gmap string Z) (o : instance)
    (ws : list string) :
  foldl (λ st w, mutate_document_frequency (increment w) st) (mk_state a wf df o) ws
  = mk_state a wf (count_all ws df) o.
Proof.
  unfold count_all. revert df. induction ws as [|w ws IH]; intros df; [done|].
  simpl. apply IH.
Qed.

Section Running.
Context `{Collaborators}.

(** [__sentence_score] returns and leaves the state alone. *)
Lemma run_sentence_score (sentence : string) (st : state) :
  __sentence_score sentence st =
  (Ok (raw_score (cls_word_frequency st) (document_number (self st))
         (document_frequency st) sentence), st).
Proof.
  unfold __sentence_score, raw_score.
  case_bool_decide as Hwords; [done|].
  erewrite run_bind; [|by apply foldM_reading].
  unfold lift, float_truediv.
  destruct (Z.eqb_spec (Z.of_nat (length (tokenize_word sentence true))) 0) as [Hz|_]; [|done].
  destruct (tokenize_word sentence true); [done|simpl in Hz; lia].
Qed.

Lemma append_scores (a : list cell) (wf df : gmap string Z) (o : instance)
    (ss : list string) :
  sentence_scores o = None →
  foldl (λ st sentence,
     mutate_sentence_scores
       (λ l, l ++ [(raw_score (cls_word_frequency st) (document_number (self st))
                      (document_frequency st) sentence, sentence)]) st)
    (mk_state a wf df o) ss
  = mk_state
      (a ++ ((λ sentence, (raw_score wf (document_number o) df sentence, sentence)) <$> ss))
      wf df o.
Proof.
  intros Ho. revert a. induction ss as [|s ss IH]; intros a.
  - simpl. by rewrite app_nil_r.
  - cbn [foldl]. unfold mutate_sentence_scores at 2. cbn [self]. rewrite Ho.
    cbn [cls_sentence_scores cls_word_frequency document_frequency self].
    rewrite IH. by rewrite <- app_assoc.
Qed.
End Running.

(** The weighting pass: [pre] is the part of the list already weighted. *)
Lemma weigh_from (wf df : gmap string Z) (o : instance) (N : nat)
    (rest pre : list cell) (body : Z * cell → M unit) :
  sentence_scores o = None →
  N = length (pre ++ rest) →
  (∀ ic, body ic = (let '(index, _) := ic in
      len ← read (λ st, Z.of_nat (length (resolve_sentence_scores st)));
      distribution ← lift (int_truediv index len);
      let weight := position_weight distribution in
      modify (mutate_sentence_scores
                (alter (λ c : cell, ((c.1 * weight)%float, c.2)) (Z.to_nat index))))) →
  for_each (zip (Z.of_nat <$> seq (length pre) (length rest)) rest) body
    (mk_state (pre ++ rest) wf df o)
  = (Ok (),
     mk_state
       (pre ++ imap (λ i c,
          ((c.1 * position_weight
                    (float_of_int (Z.of_nat (length pre + i))
                     / float_of_int (Z.of_nat N)))%float, c.2)) rest)
       wf df o).
Proof.
  intros Ho HN Hbody. revert pre HN.
  induction rest as [|c rest IH]; intros pre HN; [done|].
  cbn [length seq fmap list_fmap zip zip_with for_each].
  rewrite Hbody.
  unfold mbind at 1, M_bind at 1.
  unfold mbind at 1, M_bind at 1, read at 1.
  unfold resolve_sentence_scores at 1. cbn [self cls_sentence_scores]. rewrite Ho.
  rewrite <- HN.
  unfold mbind at 1, M_bind at 1, lift at 1, int_truediv at 1.
  destruct (Z.eqb_spec (Z.of_nat N) 0) as [Hz|_].
  { rewrite length_app in HN. simpl in HN. lia. }
  unfold modify at 1, mutate_sentence_scores at 1. cbn [self]. rewrite Ho.
  cbn [cls_sentence_scores cls_word_frequency document_frequency self].
  rewrite Nat2Z.id.
  replace (alter _ (length pre) (pre ++ c :: rest)) with
    ((pre ++ [((c.1 * position_weight
                   (float_of_int (Z.of_nat (length pre)) / float_of_int (Z.of_nat N)))%float,
                c.2)]) ++ rest).
  2:{ rewrite <- app_assoc. simpl.
      rewrite alter_app_r_alt by lia.
      by rewrite Nat.sub_diag. }
  set (w := ((c.1 * position_weight
                   (float_of_int (Z.of_nat (length pre)) / float_of_int (Z.of_nat N)))%float,
              c.2)).
  assert (length (pre ++ [w]) = S (length pre)) as Hlen
    by (rewrite length_app; simpl; lia).
  specialize (IH (pre ++ [w])). rewrite Hlen in IH.
  rewrite IH.
  2:{ rewrite HN, !length_app. simpl. lia. }
  f_equal. f_equal. rewrite <- app_assoc. simpl. f_equal.
  rewrite Nat.add_0_r. f_equal.
  apply imap_ext. intros i x _. simpl. repeat f_equal. lia.
Qed.

Section Constructed.
Context `{Collaborators}.

Lemma run_weigh (a : list cell) (wf df : gmap string Z) (o : instance) :
  sentence_scores o = None →
  __weigh_sentences_by_position (mk_state a wf df o)
  = (Ok (), mk_state (weighted a) wf df o).
Proof.
  intros Ho. unfold __weigh_sentences_by_position.
  unfold mbind at 1, M_bind at 1, read at 1.
  unfold resolve_sentence_scores at 1. cbn [self cls_sentence_scores]. rewrite Ho.
  unfold enumerate.
  by rewrite (weigh_from wf df o (length a) a []).
Qed.

Lemma run_count_words (a : list cell) (wf df : gmap string Z) (o : instance)
    (ss : list string) :
  foldM (λ word_set sentence,
     let words := tokenize_word sentence true in
     foldM (λ (word_set : gset string) word,
        modify (mutate_word_frequency (increment word));;
        mret (word_set ∪ {[word]})) word_set words) ∅ ss (mk_state a wf df o)
  = (Ok (list_to_set (article_words ss)),
     mk_state a (count_all (article_words ss) wf) df o).
Proof.
  erewrite foldM_closed.
  2:{ intros acc sentence st. cbn zeta. by apply foldM_closed. }
  cbn beta. f_equal.
  - f_equal. unfold article_words.
    rewrite (foldl_fmap' (λ acc l, foldl (λ (s : gset string) w, s ∪ {[w]}) acc l)
               (λ s, tokenize_word s true)).
    rewrite foldl_concat, foldl_add_words. set_solver.
  - unfold article_words.
    rewrite (foldl_fmap' (λ st l, foldl (λ st w, mutate_word_frequency (increment w) st) st l)
               (λ s, tokenize_word s true)).
    rewrite foldl_concat. apply count_word_frequency.
Qed.

(** A construction never raises, and ends in the state [constructed]. *)
Lemma run_construct (article : string) (d : Z) (st : state) :
  construct article d st = (Ok (), constructed article d st).
Proof.
  destruct st as [a wf df o].
  unfold construct, __init__, constructed.
  cbn [cls_sentence_scores cls_word_frequency document_frequency self].
  unfold mbind at 1, M_bind at 1, modify at 1, set_self at 1.
  cbn [cls_sentence_scores cls_word_frequency document_frequency self].
  unfold mbind at 1, M_bind at 1, modify at 1, set_sentences at 1, set_self at 1.
  cbn [cls_sentence_scores cls_word_frequency document_frequency self
       sentences document_number sentence_scores ranked_sentences blank].
  unfold mbind at 1, M_bind at 1, modify at 1, set_document_number at 1, set_self at 1.
  cbn [cls_sentence_scores cls_word_frequency document_frequency self
       sentences document_number sentence_scores ranked_sentences].
  unfold mbind at 1, M_bind at 1, read at 1.
  cbn [self sentences].
  erewrite run_bind by apply run_count_words.
  erewrite run_bind.
  2:{ erewrite for_each_closed by (intros; reflexivity).
      by rewrite count_document_frequency. }
  erewrite run_bind.
  2:{ rewrite (for_each_closed _ (λ sentence st,
             mutate_sentence_scores
               (λ l, l ++ [(raw_score (cls_word_frequency st)
                              (document_number (self st)) (document_frequency st)
                              sentence, sentence)]) st)).
      2:{ intros s st. erewrite run_bind by apply run_sentence_score. reflexivity. }
      by rewrite append_scores. }
  erewrite run_bind by (by apply run_weigh).
  reflexivity.
Qed.
End Constructed.

(** ** Conversions of lengths and indices

    A Python list has fewer than 2^63 elements; [float] of such a number is
    finite. *)

Lemma digits2_pos_bounds (p : positive) :
  2 ^ (Z.pos (digits2_pos p) - 1) ≤ Z.pos p < 2 ^ Z.pos (digits2_pos p).
Proof.
  induction p as [p IH|p IH|]; cbn [digits2_pos]; [| |done].
  - rewrite Pos2Z.inj_succ, Z.pow_succ_r by lia.
    replace (Z.succ (Z.pos (digits2_pos p)) - 1) with (Z.succ (Z.pos (digits2_pos p) - 1)) by lia.
    rewrite Z.pow_succ_r by lia. lia.
  - rewrite Pos2Z.inj_succ, Z.pow_succ_r by lia.
    replace (Z.succ (Z.pos (digits2_pos p)) - 1) with (Z.succ (Z.pos (digits2_pos p) - 1)) by lia.
    rewrite Z.pow_succ_r by lia. lia.
Qed.

Lemma Zdigits2_bound (m k : Z) :
  0 ≤ k → 0 ≤ m < 2 ^ k → 0 ≤ Zdigits2 m ≤ k.
Proof.
  intros Hk [Hm Hlt]. destruct m as [|p|p]; simpl; [lia| |lia].
  split; [lia|]. pose proof (digits2_pos_bounds p) as [Hlo _].
  destruct (Z.le_gt_cases (Z.pos (digits2_pos p)) k) as [|Hgt]; [done|].
  assert (2 ^ k ≤ 2 ^ (Z.pos (digits2_pos p) - 1)) by (apply Z.pow_le_mono_r; lia).
  lia.
Qed.

Lemma shr_1_bounds (mrs : shr_record) :
  0 ≤ shr_m mrs → 0 ≤ shr_m (shr_1 mrs) ≤ shr_m mrs.
Proof.
  destruct mrs as [[|[p|p|]|p] r s]; simpl; lia.
Qed.

Lemma iter_shr_1_bounds (p : positive) (mrs : shr_record) :
  0 ≤ shr_m mrs → 0 ≤ shr_m (SpecFloat.iter_pos shr_1 p mrs) ≤ shr_m mrs.
Proof.
  revert mrs. induction p as [p IH|p IH|]; intros mrs Hm; cbn [SpecFloat.iter_pos].
  - pose proof (shr_1_bounds mrs Hm) as H1.
    pose proof (IH (shr_1 mrs) (proj1 H1)) as H2.
    pose proof (IH _ (proj1 H2)). lia.
  - pose proof (IH mrs Hm) as H2.
    pose proof (IH _ (proj1 H2)). lia.
  - by apply shr_1_bounds.
Qed.

Lemma shr_fexp_bounds (m e : Z) (l : location) :
  0 ≤ m →
  0 ≤ shr_m (shr_fexp prec emax m e l).1 ≤ m
  ∧ (shr_fexp prec emax m e l).2 ≤ Z.max e (Z.max (Zdigits2 m + e - 53) (-1074)).
Proof.
  intros Hm. unfold shr_fexp, shr.
  assert (shr_m (shr_record_of_loc m l) = m) as Hrec
    by (destruct l as [|[]]; done).
  assert (fexp prec emax (Zdigits2 m + e) = Z.max (Zdigits2 m + e - 53) (-1074)) as ->
    by done.
  destruct (Z.max (Zdigits2 m + e - 53) (-1074) - e) as [|p|p] eqn:Hn; cbn [fst snd].
  - rewrite Hrec. lia.
  - pose proof (iter_shr_1_bounds p (shr_record_of_loc m l)) as Hb.
    rewrite Hrec in Hb. specialize (Hb Hm). lia.
  - rewrite Hrec. lia.
Qed.

Lemma round_nearest_even_bounds (m : Z) (l : location) :
  0 ≤ m → 0 ≤ round_nearest_even m l ≤ m + 1.
Proof.
  intros Hm. unfold round_nearest_even.
  destruct l as [|[]]; try lia. destruct (Z.even m); lia.
Qed.

Lemma binary_round_aux_finite (sx : bool) (mx ex : Z) (lx : location) :
  0 ≤ mx < 2 ^ 64 → ex ≤ 100 →
  finite_or_zero (binary_round_aux prec emax sx mx ex lx).
Proof.
  intros [Hmx Hlt] Hex. unfold binary_round_aux.
  pose proof (shr_fexp_bounds mx ex lx Hmx) as [Hm1 He1].
  pose proof (Zdigits2_bound mx 64 ltac:(lia) (conj Hmx Hlt)) as Hd1.
  destruct (shr_fexp prec emax mx ex lx) as [mrs' e'] eqn:H1. cbn [fst snd] in *.
  pose proof (round_nearest_even_bounds (shr_m mrs') (loc_of_shr_record mrs')
                (proj1 Hm1)) as Hr.
  set (m2 := round_nearest_even (shr_m mrs') (loc_of_shr_record mrs')) in *.
  pose proof (shr_fexp_bounds m2 e' loc_Exact (proj1 Hr)) as [Hm2 He2].
  assert (0 ≤ m2 < 2 ^ 65) as Hm2lt by (change (2 ^ 65) with (2 * 2 ^ 64); lia).
  pose proof (Zdigits2_bound m2 65 ltac:(lia) Hm2lt) as Hd2.
  destruct (shr_fexp prec emax m2 e' loc_Exact) as [mrs'' e''] eqn:H2.
  cbn [fst snd] in *.
  destruct (shr_m mrs'') as [|p|p]; [done| |lia].
  destruct (Z.leb_spec e'' (emax - prec)) as [|Hgt]; [done|].
  unfold emax, prec in Hgt. lia.
Qed.

Lemma iter_xO_value (m d : positive) :
  Z.pos (Pos.iter xO m d) = Z.pos m * 2 ^ Z.pos d.
Proof.
  induction d as [|d IH] using Pos.peano_ind.
  - simpl. lia.
  - rewrite Pos.iter_succ, Pos2Z.inj_xO, IH, Pos2Z.inj_succ, Z.pow_succ_r by lia. lia.
Qed.

Lemma binary_normalize_finite (z : Z) :
  0 ≤ z < 2 ^ 63 → finite_or_zero (binary_normalize prec emax z 0 false).
Proof.
  intros [Hz Hlt]. destruct z as [|m|m]; [done| |lia].
  cbn [binary_normalize]. unfold binary_round, shl_align.
  pose proof (digits2_pos_bounds m) as [Hlo Hhi].
  pose proof (Zdigits2_bound (Z.pos m) 63 ltac:(lia) (conj Hz Hlt)) as [_ Hd].
  cbn [Zdigits2] in Hd.
  assert (fexp prec emax (Z.pos (digits2_pos m) + 0) = Z.pos (digits2_pos m) - 53) as ->.
  { unfold fexp, SpecFloat.emin, prec, emax. lia. }
  destruct (Z.pos (digits2_pos m) - 53 - 0) as [|d|d] eqn:Hsub.
  - apply binary_round_aux_finite; [|lia]. change (2 ^ 64) with (2 * 2 ^ 63). lia.
  - apply binary_round_aux_finite; [|lia]. change (2 ^ 64) with (2 * 2 ^ 63). lia.
  - apply binary_round_aux_finite; [|lia].
    change (PosDef.Pos.iter xO m d) with (Pos.iter xO m d).
    rewrite iter_xO_value. split; [lia|].
    assert (Z.pos m * 2 ^ Z.pos d < 2 ^ Z.pos (digits2_pos m) * 2 ^ Z.pos d)
      by (apply Z.mul_lt_mono_pos_r; lia).
    rewrite <- Z.pow_add_r in H by lia.
    replace (Z.pos (digits2_pos m) + Z.pos d) with 53 in H by lia.
    assert (2 ^ 53 ≤ 2 ^ 64) by (apply Z.pow_le_mono_r; lia). lia.
Qed.

(** [float(z)] of a length or an index is a zero or a finite number. *)
Lemma Prim2SF_float_of_int (z : Z) :
  0 ≤ z < 2 ^ 63 → finite_or_zero (Prim2SF (float_of_int z)).
Proof.
  intros Hz. unfold float_of_int.
  assert (binary_normalize prec emax z 0 false = Prim2SF (of_uint63 (Uint63.of_Z z))) as ->.
  { rewrite FloatAxioms.of_uint63_spec, Uint63.of_Z_spec, Z.mod_small; [done|].
    change wB with (2 ^ 63). lia. }
  rewrite FloatAxioms.SF2Prim_Prim2SF.
  rewrite FloatAxioms.of_uint63_spec, Uint63.of_Z_spec, Z.mod_small.
  - by apply binary_normalize_finite.
  - change wB with (2 ^ 63). lia.
Qed.

(** A zero percentage gives [n = 0] whatever the number of sentences. *)
Lemma int_of_zero_percentage (percentage : float) (len : Z) :
  (percentage =? 0)%float = true →
  0 ≤ len < 2 ^ 63 →
  int_of_float (percentage / 100 * float_of_int len)%float = Ok 0.
Proof.
  intros Hp Hlen. unfold int_of_float.
  rewrite FloatAxioms.mul_spec, FloatAxioms.div_spec.
  rewrite FloatAxioms.eqb_spec in Hp. unfold SFeqb in Hp.
  assert (SFcompare (Prim2SF percentage) (Prim2SF 0) = Some Eq) as Hcmp
    by (destruct (SFcompare (Prim2SF percentage) (Prim2SF 0)) as [[]|]; done).
  pose proof (Prim2SF_float_of_int len Hlen) as Hfin.
  destruct (Prim2SF (float_of_int len)) as [s| | |s m e]; try done;
    destruct (Prim2SF percentage) as [sp|sp| |sp mp ep];
    try done; try (destruct sp; done).
Qed.

(** A number in canonical form rounds to itself. *)
Lemma binary_round_aux_canonical (s : bool) (m : positive) (e : Z) :
  bounded prec emax m e = true →
  binary_round_aux prec emax s (Z.pos m) e loc_Exact = S754_finite s m e.
Proof.
  unfold bounded, canonical_mantissa. intros [Hc He]%andb_true_iff.
  apply Z.eqb_eq in Hc. apply Z.leb_le in He.
  unfold binary_round_aux, shr_fexp. cbn [Zdigits2 shr_record_of_loc].
  rewrite Hc, Z.sub_diag. cbn [shr shr_m loc_of_shr_record round_nearest_even Zdigits2].
  rewrite Hc, Z.sub_diag. cbn [shr shr_m].
  destruct (Z.leb_spec e (emax - prec)); [done|lia].
Qed.

Lemma digits2_pos_iter_xO (m d : positive) :
  Z.pos (digits2_pos (Pos.iter xO m d)) = Z.pos (digits2_pos m) + Z.pos d.
Proof.
  induction d as [|d IH] using Pos.peano_ind.
  - simpl. lia.
  - rewrite Pos.iter_succ. cbn [digits2_pos]. rewrite !Pos2Z.inj_succ, IH. lia.
Qed.

(** Below 2^53 the conversion of an int is exact: the mantissa shifted to 53
    bits. *)
Lemma binary_normalize_exact (z : Z) :
  0 < z < 2 ^ 53 →
  ∃ (m : positive) (e : Z),
    binary_normalize prec emax z 0 false = S754_finite false m e
    ∧ -52 ≤ e ≤ 0 ∧ Z.pos m = z * 2 ^ (- e).
Proof.
  intros [Hz Hlt]. destruct z as [|m|m]; [lia| |lia].
  cbn [binary_normalize]. unfold binary_round, shl_align.
  pose proof (digits2_pos_bounds m) as [Hlo Hhi].
  pose proof (Zdigits2_bound (Z.pos m) 53 ltac:(lia) (conj (Z.lt_le_incl _ _ Hz) Hlt))
    as [_ Hd].
  cbn [Zdigits2] in Hd.
  assert (fexp prec emax (Z.pos (digits2_pos m) + 0) = Z.pos (digits2_pos m) - 53) as ->.
  { unfold fexp, SpecFloat.emin, prec, emax. lia. }
  destruct (Z.pos (digits2_pos m) - 53 - 0) as [|d|d] eqn:Hsub; [|lia|].
  - exists m, 0. split; [|simpl; lia].
    apply binary_round_aux_canonical. unfold bounded, canonical_mantissa.
    apply andb_true_iff. split; [|done]. apply Z.eqb_eq.
    unfold fexp, SpecFloat.emin, prec, emax. lia.
  - exists (Pos.iter xO m d), (Z.pos (digits2_pos m) - 53).
    change (PosDef.Pos.iter xO m d) with (Pos.iter xO m d).
    split; [|split; [lia|]].
    + apply binary_round_aux_canonical. unfold bounded, canonical_mantissa.
      apply andb_true_iff. split.
      * apply Z.eqb_eq. rewrite digits2_pos_iter_xO.
        unfold fexp, SpecFloat.emin, prec, emax. lia.
      * apply Z.leb_le. unfold emax, prec. lia.
    + rewrite iter_xO_value. f_equal. f_equal. lia.
Qed.

(** Multiplying by 1.0 changes no finite number. *)
Lemma SFmul_one (s : bool) (m : positive) (e : Z) :
  bounded prec emax m e = true →
  SF64mul (Prim2SF 1) (S754_finite s m e) = S754_finite s m e.
Proof.
  intros Hb. pose proof Hb as [Hc He]%andb_true_iff.
  unfold canonical_mantissa in Hc. apply Z.eqb_eq in Hc. apply Z.leb_le in He.
  change (Prim2SF 1) with (S754_finite false 4503599627370496 (-52)).
  unfold SF64mul, SFmul. cbn [xorb].
  let x := constr:((4503599627370496 * m)%positive) in
  let y := eval lazy in x in change x with y.
  unfold binary_round_aux, shr_fexp. cbn [Zdigits2 digits2_pos shr_record_of_loc].
  rewrite !Pos2Z.inj_succ.
  replace (Z.succ _ + (-52 + e)) with (Z.pos (digits2_pos m) + e) by lia.
  rewrite Hc. replace (e - (-52 + e)) with 52 by lia.
  cbn [shr SpecFloat.iter_pos shr_1 shr_m loc_of_shr_record orb round_nearest_even
       Zdigits2 shr_record_of_loc].
  replace (-52 + e + 52) with e by lia.
  rewrite Hc, Z.sub_diag. cbn [shr shr_m].
  destruct (Z.leb_spec e (emax - prec)); [done|lia].
Qed.

(** [int(100 / 100 * len)] is [len]. *)
Lemma int_of_full_percentage (percentage : float) (len : Z) :
  (percentage =? 100)%float = true →
  0 ≤ len < 2 ^ 53 →
  int_of_float (percentage / 100 * float_of_int len)%float = Ok len.
Proof.
  intros Hp [Hlen Hlt].
  assert (percentage = 100%float) as ->.
  { rewrite FloatAxioms.eqb_spec in Hp. unfold SFeqb in Hp.
    assert (SFcompare (Prim2SF percentage) (Prim2SF 100) = Some Eq) as Hcmp
      by (destruct (SFcompare (Prim2SF percentage) (Prim2SF 100)) as [[]|]; done).
    apply SFcompare_Eq_inv in Hcmp as [(s & s' & _ & Hz)|[Heq _]]; [done|].
    by apply FloatAxioms.Prim2SF_inj. }
  change (100 / 100)%float with 1%float.
  destruct (Z.eq_dec len 0) as [->|Hne]; [reflexivity|].
  destruct (binary_normalize_exact len ltac:(lia)) as (m & e & Hn & He & Hm).
  assert (Prim2SF (float_of_int len) = S754_finite false m e) as Hx.
  { unfold float_of_int.
    assert (binary_normalize prec emax len 0 false
            = Prim2SF (of_uint63 (Uint63.of_Z len))) as Hof.
    { rewrite FloatAxioms.of_uint63_spec, Uint63.of_Z_spec, Z.mod_small; [done|].
      change wB with (2 ^ 63).
      assert (2 ^ 53 ≤ 2 ^ 63) by (apply Z.pow_le_mono_r; lia). lia. }
    by rewrite Hof, FloatAxioms.SF2Prim_Prim2SF, <- Hof. }
  unfold int_of_float. rewrite FloatAxioms.mul_spec, Hx, SFmul_one.
  2:{ pose proof (FloatAxioms.Prim2SF_valid (float_of_int len)) as Hv.
      by rewrite Hx in Hv. }
  f_equal. destruct (Z.leb_spec 0 e) as [H0|Hneg].
  - replace e with 0 in * by lia. simpl in Hm. lia.
  - rewrite Hm. apply Z.div_mul. apply Z.pow_nonzero; lia.
Qed.

(** ** Order of equal keys *)

Lemma float_eqb_refl_r (x y : float) :
  (x =? y)%float = true → (y =? y)%float = true.
Proof.
  rewrite !FloatAxioms.eqb_spec. unfold SFeqb. intros H.
  assert (SFcompare (Prim2SF x) (Prim2SF y) = Some Eq) as Hxy
    by (destruct (SFcompare (Prim2SF x) (Prim2SF y)) as [[]|]; done).
  destruct (SFcompare_Eq_inv _ _ Hxy) as [(s & s' & _ & ->)|[Heq Hn]]; [done|].
  rewrite SFcompare_refl; [done|]. by rewrite <- Heq.
Qed.

Section Order.
Context {A : Type} (key : A → float).

Lemma with_key_split (v : float) (l k1 k2 : list A) (x : A) :
  with_key key v l = k1 ++ x :: k2 →
  ∃ l1 l2, l = l1 ++ x :: l2 ∧ with_key key v l1 = k1 ∧ with_key key v l2 = k2.
Proof.
  revert k1. induction l as [|y l IH]; intros k1.
  - by destruct k1.
  - rewrite with_key_cons. destruct (key y =? v)%float eqn:Hy.
    + destruct k1 as [|z k1]; simpl.
      * intros [= -> <-]. by exists [], l.
      * intros [= <- (l1 & l2 & -> & <- & <-)%IH].
        exists (y :: l1), l2. by rewrite with_key_cons, Hy.
    + intros (l1 & l2 & -> & <- & <-)%IH.
      exists (y :: l1), l2. by rewrite with_key_cons, Hy.
Qed.

(** Two elements with equal keys come out of the model [sorted] in the
    order they went in. *)
Lemma sorted_keeps_order (reverse : bool) (a b : A) (l1 l2 l3 : list A) :
  (key a =? key b)%float = true →
  ∃ k1 k2 k3,
    sorted key reverse (l1 ++ a :: l2 ++ b :: l3) = k1 ++ a :: k2 ++ b :: k3.
Proof.
  intros Hab. pose proof (float_eqb_refl_r _ _ Hab) as Hb.
  pose proof (with_key_sorted key (key b) reverse (l1 ++ a :: l2 ++ b :: l3)) as H.
  rewrite with_key_app, with_key_cons, Hab, with_key_app, with_key_cons, Hb in H.
  apply with_key_split in H as (k1 & k' & Hk & _ & H).
  apply with_key_split in H as (k2 & k3 & -> & _ & _).
  by exists k1, k2, k3.
Qed.
End Order.

(** The order in which words are counted does not matter: Python may iterate
    over [word_set] in any order. *)
Lemma count_all_Permutation (ws vs : list string) (d : gmap string Z) :
  ws ≡ₚ vs → count_all ws d = count_all vs d.
Proof.
  intros Hp. apply map_eq. intros w. rewrite !lookup_count_all.
  assert (occurrences w ws = occurrences w vs) as ->.
  { unfold occurrences. by rewrite Hp. }
  destruct (decide (w ∈ ws)) as [Hin|Hnin].
  - rewrite decide_True; [done|]. by rewrite <- Hp.
  - rewrite decide_False; [done|]. by rewrite <- Hp.
Qed.

(** ** The position weights *)

(** The if-chain of the code and the table of the spec give every normalized
    position, also a NaN or one outside [0, 1), the same weight. *)
Lemma position_weight_table (distribution : float) :
  position_weight distribution = table_weight distribution.
Proof.
  unfold position_weight, table_weight, weight_table, default_weight. cbn [List.find].
  repeat (destruct (_ && _)%bool; [reflexivity|]). reflexivity.
Qed.

Lemma weighted_table (l : list cell) (i : nat) :
  weighted l !! i =
  (λ c : cell,
     ((c.1 * table_weight (float_of_int (Z.of_nat i)
                           / float_of_int (Z.of_nat (length l))))%float, c.2))
  <$> l !! i.
Proof.
  unfold weighted. rewrite list_lookup_imap. cbn zeta.
  by rewrite position_weight_table.
Qed.

Lemma snd_weighted (l : list cell) : snd <$> weighted l = snd <$> l.
Proof.
  unfold weighted. rewrite fmap_imap.
  rewrite <- (imap_const snd l). by apply imap_ext.
Qed.

Lemma length_weighted (l : list cell) : length (weighted l) = length l.
Proof. apply length_imap. Qed.

Lemma weights_exact_upto_spec (bound i N : nat) :
  weights_exact_upto bound = true →
  (i < N ≤ bound)%nat →
  position_weight (float_of_int (Z.of_nat i) / float_of_int (Z.of_nat N))
  = exact_weight (Z.of_nat i) (Z.of_nat N).
Proof.
  unfold weights_exact_upto. intros H [Hi HN].
  rewrite forallb_forall in H. specialize (H N).
  rewrite forallb_forall in H.
  apply FloatAxioms.Leibniz.eqb_spec, H; apply in_seq; lia.
Qed.

Lemma weights_exact_256 : weights_exact_upto 256 = true.
Proof. vm_compute. reflexivity. Qed.

(** For lists of at most 256 pairs the float comparisons pick the bucket of
    the exact quotient: rounding never moves [i / N] across a bound of the
    table. *)
Lemma position_weight_exact (i N : nat) :
  (i < N ≤ 256)%nat →
  position_weight (float_of_int (Z.of_nat i) / float_of_int (Z.of_nat N))
  = exact_weight (Z.of_nat i) (Z.of_nat N).
Proof. apply weights_exact_upto_spec, weights_exact_256. Qed.

(** ** [get_top_sentences] *)

Lemma filter_in_nil (l : list string) :
  filter (λ sentence, sentence ∈ @nil string) l = [].
Proof.
  induction l as [|s l IH]; [done|].
  rewrite filter_cons_False; [exact IH|]. apply not_elem_of_nil.
Qed.

Lemma filter_in_superset (l k : list string) :
  l ⊆ k → filter (λ sentence, sentence ∈ k) l = l.
Proof.
  induction l as [|s l IH]; intros Hsub; [done|].
  rewrite filter_cons_True by (apply Hsub; left).
  f_equal. apply IH. intros x Hx. apply Hsub. by right.
Qed.

(** When [int] returns [n], the method returns the sentences that occur in
    [ranked_sentences[0:n]]. *)
Lemma run_get_top_sentences (percentage : float) (st : state) (n : Z) :
  int_of_float (percentage / 100
                * float_of_int (Z.of_nat (length (sentences (self st)))))%float
  = Ok n →
  get_top_sentences percentage st
  = (Ok (filter (λ sentence, sentence ∈ slice_to (ranked_sentences (self st)) n)
           (sentences (self st))), st).
Proof.
  intros Hn. unfold get_top_sentences.
  unfold mbind, M_bind, read, lift, mret, M_ret. by rewrite Hn.
Qed.

(** When the slice covers a ranking that holds every sentence of the article,
    the result is the article, in article order. *)
Lemma get_top_sentences_full (percentage : float) (st : state) (n : Z) :
  int_of_float (percentage / 100
                * float_of_int (Z.of_nat (length (sentences (self st)))))%float
  = Ok n →
  Z.of_nat (length (ranked_sentences (self st))) ≤ n →
  sentences (self st) ⊆ ranked_sentences (self st) →
  get_top_sentences percentage st = (Ok (sentences (self st)), st).
Proof.
  intros Hn Hlen Hsub. rewrite (run_get_top_sentences _ _ _ Hn).
  by rewrite slice_to_all, filter_in_superset.
Qed.

(** ** The order of the scores *)

Lemma SFltb_order_key (x y : spec_float) :
  x ≠ S754_nan → y ≠ S754_nan →
  SFltb x y = true ↔ key_lt (order_key x) (order_key y).
Proof.
  intros Hx Hy. unfold SFltb, key_lt.
  destruct x as [s|s| |s m e], y as [s'|s'| |s' m' e']; try done;
    cbn [SFcompare order_key fst snd].
  all: try (destruct s); try (destruct s'); cbn [fst snd].
  all: try (split; [done|lia]).
  all: try (split; [lia|done]).
  all: change (Pos.compare_cont Eq m m') with (Pos.compare m m');
    destruct (Z.compare_spec e e'), (Pos.compare_spec m m');
    cbn [CompOpp]; split; solve [done | lia].
Qed.

Lemma is_number_not_nan (x : float) :
  is_number x = true → Prim2SF x ≠ S754_nan.
Proof.
  unfold is_number. rewrite FloatAxioms.eqb_spec. unfold SFeqb.
  intros H Hn. by rewrite Hn in H.
Qed.

Lemma not_is_number_nan (x : float) :
  is_number x = false → Prim2SF x = S754_nan.
Proof.
  intros Hx. destruct (Prim2SF x) eqn:Hp; try done;
    exfalso; unfold is_number in Hx;
    rewrite FloatAxioms.eqb_spec, Hp in Hx; unfold SFeqb in Hx;
    rewrite SFcompare_refl in Hx; done.
Qed.

Lemma float_lt_asym (x y : float) :
  (x <? y)%float = true → (y <? x)%float = false.
Proof.
  rewrite !FloatAxioms.ltb_spec. intros Hlt.
  assert (Prim2SF x ≠ S754_nan ∧ Prim2SF y ≠ S754_nan) as [Hx Hy].
  { unfold SFltb in Hlt.
    destruct (Prim2SF x), (Prim2SF y); try done. }
  apply (SFltb_order_key _ _ Hx Hy) in Hlt.
  apply not_true_is_false. intros Hgt%(SFltb_order_key _ _ Hy Hx).
  unfold key_lt in *. lia.
Qed.

(** On numbers, "not less than" is transitive. *)
Lemma float_le_trans (x y z : float) :
  is_number x = true → is_number y = true → is_number z = true →
  (y <? x)%float = false → (z <? y)%float = false → (z <? x)%float = false.
Proof.
  intros Hx%is_number_not_nan Hy%is_number_not_nan Hz%is_number_not_nan.
  rewrite !FloatAxioms.ltb_spec. intros Hxy Hyz.
  apply not_true_is_false. intros Hzx%(SFltb_order_key _ _ Hz Hx).
  assert (¬ key_lt (order_key (Prim2SF y)) (order_key (Prim2SF x))) as Hxy'
    by (rewrite <- (SFltb_order_key _ _ Hy Hx); congruence).
  assert (¬ key_lt (order_key (Prim2SF z)) (order_key (Prim2SF y))) as Hyz'
    by (rewrite <- (SFltb_order_key _ _ Hz Hy); congruence).
  unfold key_lt in *. lia.
Qed.

Section SortedOrder.
Context {A : Type} (key : A → float).

Lemma insort_StronglySorted (x : A) (l : list A) :
  Forall (λ a, is_number (key a) = true) (x :: l) →
  StronglySorted (ascending key) l →
  StronglySorted (ascending key) (insort key x l).
Proof.
  intros Hnum Hl. induction Hl as [|y r Hr IH Hy]; [repeat constructor|].
  apply Forall_cons in Hnum as [Hx [Hny Hnr]%Forall_cons].
  cbn [insort]. destruct (key y <? key x)%float eqn:Hlt.
  - apply StronglySorted_cons. split.
    + rewrite insort_Permutation. constructor; [|done].
      unfold ascending. by apply float_lt_asym.
    + apply IH. by constructor.
  - apply StronglySorted_cons. split; [|by constructor].
    constructor; [done|].
    rewrite Forall_forall in Hy, Hnr |- *. intros z Hz.
    unfold ascending in *.
    apply (float_le_trans (key x) (key y) (key z)); auto.
Qed.

Lemma sort_ascending_StronglySorted (l : list A) :
  Forall (λ a, is_number (key a) = true) l →
  StronglySorted (ascending key) (sort_ascending key l).
Proof.
  induction 1 as [|x l Hx Hl IH]; [constructor|].
  cbn [sort_ascending]. apply insort_StronglySorted; [|done].
  constructor; [done|]. by rewrite sort_ascending_Permutation.
Qed.

Lemma StronglySorted_rev (l : list A) :
  StronglySorted (ascending key) l → StronglySorted (descending key) (rev l).
Proof.
  induction 1 as [|x l Hl IH Hx]; [constructor|].
  cbn [rev]. apply StronglySorted_app. split; [|split; [done|repeat constructor]].
  intros a b Ha ->%list_elem_of_singleton.
  rewrite Forall_forall in Hx. apply Hx.
  by apply list_elem_of_In, in_rev, list_elem_of_In.
Qed.

(** With no NaN among the keys, [sorted(..., reverse=True)] is in
    non-increasing order of the keys. *)
Lemma sorted_descending (l : list A) :
  Forall (λ a, is_number (key a) = true) l →
  StronglySorted (descending key) (sorted key true l).
Proof.
  intros Hnum. unfold sorted. apply StronglySorted_rev, sort_ascending_StronglySorted.
  rewrite Forall_forall in Hnum |- *. intros a Ha. apply Hnum.
  by apply list_elem_of_In, in_rev, list_elem_of_In.
Qed.

Lemma StronglySorted_lookup (R : relation A) (l : list A) (i j : nat) (a b : A) :
  StronglySorted R l → (i < j)%nat → l !! i = Some a → l !! j = Some b → R a b.
Proof.
  intros Hl. revert i j. induction Hl as [|x l Hl IH Hx]; intros i j Hij Hi Hj; [done|].
  destruct i as [|i], j as [|j]; try lia; simpl in *.
  - injection Hi as ->. rewrite Forall_forall in Hx. apply Hx.
    by apply list_elem_of_lookup_2 in Hj.
  - apply (IH i j); [lia|done..].
Qed.
End SortedOrder.

(** ** What a construction does *)

Section Construction.
Context `{Collaborators}.

Lemma construct_state (article : string) (d : Z) (st : state) :
  (construct article d st).2 = constructed article d st.
Proof. by rewrite run_construct. Qed.

(** The sentences of the pairs the class list holds after a construction:
    those it held before, then the sentences of the article. *)
Lemma construct_cls_sentences (article : string) (d : Z) (st : state) :
  snd <$> cls_sentence_scores (constructed article d st)
  = (snd <$> cls_sentence_scores st) ++ tokenize_sentence article.
Proof.
  unfold constructed. cbn [cls_sentence_scores].
  rewrite snd_weighted, fmap_app. f_equal.
  rewrite <- list_fmap_compose. apply list_fmap_id.
Qed.

(** [ranked_sentences] is a rearrangement of the sentences of every pair of
    the class list: those of earlier constructions and those of the
    article. *)
Lemma construct_ranked_sentences (article : string) (d : Z) (st : state) :
  ranked_sentences (self (constructed article d st))
  ≡ₚ (snd <$> cls_sentence_scores st) ++ sentences (self (constructed article d st)).
Proof.
  replace (sentences (self (constructed article d st)))
    with (tokenize_sentence article) by done.
  rewrite <- (construct_cls_sentences article d st).
  unfold constructed. cbn [self ranked_sentences cls_sentence_scores].
  apply fmap_Permutation, sorted_Permutation.
Qed.

(** [ranked_sentences] is longer than [sentences] by the number of pairs the
    class list held when the construction started. *)
Lemma construct_length_ranked (article : string) (d : Z) (st : state) :
  length (ranked_sentences (self (constructed article d st)))
  = (length (cls_sentence_scores st)
     + length (sentences (self (constructed article d st))))%nat.
Proof.
  rewrite construct_ranked_sentences, length_app. by rewrite length_fmap.
Qed.

(** No construction removes a pair from the class list. *)
Lemma construct_length_cls (article : string) (d : Z) (st : state) :
  length (cls_sentence_scores (constructed article d st))
  = (length (cls_sentence_scores st) + length (tokenize_sentence article))%nat.
Proof.
  transitivity (length (snd <$> cls_sentence_scores (constructed article d st)));
    [by rewrite length_fmap|].
  rewrite construct_cls_sentences, length_app. by rewrite length_fmap.
Qed.

(** In a process whose class list is still empty, the ranking is a
    rearrangement of the article's sentences. *)
Lemma construct_first_ranked (article : string) (d : Z) (st : state) :
  cls_sentence_scores st = [] →
  ranked_sentences (self (constructed article d st))
  ≡ₚ sentences (self (constructed article d st)).
Proof. intros Hst. rewrite construct_ranked_sentences, Hst. done. Qed.

(** In such a process the sentence at index [i] of the article is weighted by
    its position among the article's sentences. *)
Lemma construct_first_weights (article : string) (d : Z) (st : state)
    (i : nat) (sentence : string) :
  let st' := constructed article d st in
  cls_sentence_scores st = [] →
  tokenize_sentence article !! i = Some sentence →
  cls_sentence_scores st' !! i
  = Some ((raw_score (cls_word_frequency st') (d + 1) (document_frequency st') sentence
           * table_weight
               (float_of_int (Z.of_nat i)
                / float_of_int (Z.of_nat (length (tokenize_sentence article)))))%float,
          sentence).
Proof.
  cbn zeta. intros Hst Hi. unfold constructed.
  cbn [cls_sentence_scores cls_word_frequency document_frequency].
  rewrite Hst, app_nil_l, weighted_table, length_fmap, list_lookup_fmap, Hi.
  reflexivity.
Qed.

(** Every pair of the class list, those of earlier constructions included,
    has its score multiplied by the table weight of its index in that list
    over the length of that list; the instance then binds the sorted list. *)
Lemma construct_weights (article : string) (d : Z) (st : state) :
  let st' := constructed article d st in
  let scored :=
    cls_sentence_scores st
    ++ ((λ s, (raw_score (cls_word_frequency st') (d + 1) (document_frequency st') s, s))
        <$> tokenize_sentence article) in
  length (cls_sentence_scores st') = length scored
  ∧ (∀ i score sentence,
       scored !! i = Some (score, sentence) →
       cls_sentence_scores st' !! i
       = Some ((score * table_weight
                          (float_of_int (Z.of_nat i)
                           / float_of_int (Z.of_nat (length scored))))%float,
               sentence))
  ∧ sentence_scores (self st')
    = Some (sorted itemgetter0 true (cls_sentence_scores st')).
Proof.
  cbn zeta. unfold constructed.
  cbn [cls_sentence_scores cls_word_frequency document_frequency self sentence_scores].
  split; [apply length_weighted|]. split; [|done].
  intros i score sentence Hi. rewrite weighted_table.
  match goal with
  | |- _ <$> ?x = _ => replace x with (Some (score, sentence)) by (symmetry; exact Hi)
  end.
  reflexivity.
Qed.

(** The class-level word-frequency table is never emptied: a construction
    adds the article's counts to whatever the table held. *)
Lemma construct_word_frequency (article : string) (d : Z) (st : state) (w : string) :
  let words := article_words (tokenize_sentence article) in
  cls_word_frequency (constructed article d st) !! w
  = if decide (w ∈ words)
    then Some (default 0 (cls_word_frequency st !! w) + occurrences w words)
    else cls_word_frequency st !! w.
Proof. apply lookup_count_all. Qed.

(** C7. A construction adds exactly 1 to the entry of the shared
    document-frequency table for every distinct word of the article (an
    absent entry counting as 0), however often the word occurs, leaves every
    other entry as it was, and lowers none. *)
Theorem construct_document_frequency (article : string) (d : Z) (st : state)
    (w : string) :
  let st' := (construct article d st).2 in
  let words := article_words (tokenize_sentence article) in
  document_frequency st' !! w
  = (if decide (w ∈ words)
     then Some (default 0 (document_frequency st !! w) + 1)
     else document_frequency st !! w)
  ∧ default 0 (document_frequency st !! w) ≤ default 0 (document_frequency st' !! w).
Proof.
  cbn zeta. rewrite construct_state.
  unfold constructed. cbn [document_frequency].
  rewrite lookup_count_all.
  set (words := article_words (tokenize_sentence article)).
  destruct (decide (w ∈ words)) as [Hin|Hnin].
  - rewrite decide_True by (by apply elem_of_elements, elem_of_list_to_set).
    rewrite occurrences_NoDup; [simpl; split; [done|lia]| |].
    + apply NoDup_elements.
    + by apply elem_of_elements, elem_of_list_to_set.
  - rewrite decide_False; [split; [done|lia]|].
    by rewrite elem_of_elements, elem_of_list_to_set.
Qed.

(** C8. A construction with input [document_number = d] stores [d + 1], and
    every call of [idf] it makes passes that count: replacing [idf] by the
    function that ignores the count it is given and uses [d + 1] changes
    neither the result nor the final state. *)
Theorem construct_document_number (article : string) (d : Z) (st : state) :
  document_number (self (construct article d st).2) = d + 1
  ∧ construct article d st
    = @construct
        {| tokenize_sentence := tokenize_sentence;
           tokenize_word := tokenize_word;
           tf := tf;
           idf := λ word _ df, idf word (d + 1) df |}
        article d st.
Proof.
  split.
  - by rewrite construct_state.
  - by rewrite !run_construct.
Qed.

(** C6. A sentence without (noun) word tokens scores exactly 0 before the
    position weights are applied, and the state is untouched; the division
    of the other branch, which would raise [ZeroDivisionError] on this
    sentence, is not performed. *)
Theorem sentence_score_without_words (sentence : string) (st : state) :
  tokenize_word sentence true = [] →
  __sentence_score sentence st = (Ok 0%float, st)
  ∧ ∀ total : float,
      float_truediv total (Z.of_nat (length (tokenize_word sentence true)))
      = Raise ZeroDivisionError.
Proof.
  intros Hwords. split.
  - rewrite run_sentence_score. unfold raw_score.
    by rewrite Hwords.
  - intros total. by rewrite Hwords.
Qed.

(** C9. The ranking is stable: when no final weighted score is a NaN, for
    every score [v] the pairs whose final weighted score equals [v] stand in
    [self.__sentence_scores], from which [ranked_sentences] is read off, in
    the order in which they were appended to the list that was sorted, and
    the article's sentences were appended in the order of [sentences]; and
    the sort is descending: no pair has a score lower than that of a pair
    that stands after it.  With a NaN among the scores [<] does not order
    them and [sorted] promises no order of the others, equal ones included:
    nothing is stated for such lists. *)
Theorem ranking_is_stable (article : string) (d : Z) (st : state) (v : float) :
  Forall (λ c : cell, is_number c.1 = true)
    (cls_sentence_scores (construct article d st).2) →
  let st' := (construct article d st).2 in
  ∃ ranked : list cell,
    sentence_scores (self st') = Some ranked
    ∧ ranked_sentences (self st') = snd <$> ranked
    ∧ ranked = sorted itemgetter0 true (cls_sentence_scores st')
    ∧ with_key itemgetter0 v ranked
      = with_key itemgetter0 v (cls_sentence_scores st')
    ∧ snd <$> cls_sentence_scores st'
      = (snd <$> cls_sentence_scores st) ++ sentences (self st')
    ∧ ∀ (i j : nat) (a b : cell),
        (i < j)%nat → ranked !! i = Some a → ranked !! j = Some b →
        (a.1 <? b.1)%float = false.
Proof.
  cbn zeta. rewrite construct_state. intros Hnum.
  eexists. split; [reflexivity|].
  split; [reflexivity|]. split; [reflexivity|]. split; [|split].
  - apply with_key_sorted.
  - apply construct_cls_sentences.
  - intros i j a b Hij Hi Hj.
    apply (StronglySorted_lookup (descending itemgetter0) _ i j a b
             (sorted_descending itemgetter0 _ Hnum) Hij Hi Hj).
Qed.

(** On the first construction of a process [get_top_sentences(100)] returns
    the article, sentence by sentence in article order. *)
Lemma get_top_sentences_100_first_construction (article : string) (d : Z)
    (st : state) (percentage : float) :
  cls_sentence_scores st = [] →
  Z.of_nat (length (tokenize_sentence article)) < 2 ^ 53 →
  (percentage =? 100)%float = true →
  get_top_sentences percentage (constructed article d st)
  = (Ok (tokenize_sentence article), constructed article d st).
Proof.
  intros Hst Hlen Hp.
  apply (get_top_sentences_full percentage (constructed article d st)
           (Z.of_nat (length (tokenize_sentence article)))).
  - apply int_of_full_percentage; [done|]. cbn [constructed self sentences]. lia.
  - rewrite construct_length_ranked, Hst. done.
  - intros s Hs. by rewrite (construct_first_ranked article d st Hst).
Qed.

End Construction.

(** C10. [get_top_sentences] changes nothing: the state after the call,
    with [sentences], [ranked_sentences], [document_number], the shared
    document-frequency table and the class attributes, is the state before
    it, whether the call returns or raises, and a second call with the same
    argument gives the same result. *)
Theorem get_top_sentences_frame (percentage : float) (st : state) :
  (get_top_sentences percentage st).2 = st
  ∧ get_top_sentences percentage (get_top_sentences percentage st).2
    = get_top_sentences percentage st.
Proof.
  assert ((get_top_sentences percentage st).2 = st) as Hst.
  { unfold get_top_sentences.
    unfold mbind, M_bind, read, lift, mret, M_ret.
    by destruct (int_of_float _). }
  by rewrite Hst.
Qed.

(** C4, as amended. [get_top_sentences(0)] returns an empty sequence, and
    so does every call for which [n = int(percentage / 100 * len(sentences))]
    is 0; when [n] is negative the result is the sentences that occur in
    [ranked_sentences] without its last [-n] entries. *)
Theorem get_top_sentences_nonpositive (percentage : float) (st : state) :
  Z.of_nat (length (sentences (self st))) < 2 ^ 63 →
  ((percentage =? 0)%float = true →
   get_top_sentences percentage st = (Ok [], st))
  ∧ ∀ n : Z,
      int_of_float (percentage / 100
                    * float_of_int (Z.of_nat (length (sentences (self st)))))%float
      = Ok n →
      (n = 0 → get_top_sentences percentage st = (Ok [], st))
      ∧ (n < 0 →
         get_top_sentences percentage st
         = (Ok (filter (λ sentence,
                    sentence ∈ take (length (ranked_sentences (self st))
                                     - Z.to_nat (- n))
                                 (ranked_sentences (self st)))
                  (sentences (self st))), st)).
Proof.
  intros Hlen.
  assert (∀ n : Z,
    int_of_float (percentage / 100
                  * float_of_int (Z.of_nat (length (sentences (self st)))))%float
    = Ok n →
    n = 0 → get_top_sentences percentage st = (Ok [], st)) as Hzero.
  { intros n Hn ->. rewrite (run_get_top_sentences _ _ _ Hn).
    by rewrite slice_to_zero, filter_in_nil. }
  split.
  - intros Hp. apply (Hzero 0); [|done].
    apply int_of_zero_percentage; [done|lia].
  - intros n Hn. split; [by apply Hzero|].
    intros Hneg. rewrite (run_get_top_sentences _ _ _ Hn).
    by rewrite slice_to_negative.
Qed.

(** ** Selections and counts *)

Lemma slice_to_subseteq {A} (l : list A) (n : Z) : slice_to l n ⊆ l.
Proof.
  unfold slice_to. intros x Hx.
  destruct (n <? 0); (eapply elem_of_sublist; [exact Hx|apply sublist_take]).
Qed.

Lemma slice_to_mono {A} (l : list A) (n n' : Z) :
  0 ≤ n ≤ n' → slice_to l n ⊆ slice_to l n'.
Proof.
  intros Hn. unfold slice_to.
  destruct (Z.ltb_spec n 0), (Z.ltb_spec n' 0); try lia.
  intros x (i & Hi & Hlt)%elem_of_take. apply elem_of_take. exists i. split; [done|lia].
Qed.

Lemma filter_in_mono (l k k' : list string) :
  k ⊆ k' →
  filter (λ s, s ∈ k) l `sublist_of` filter (λ s, s ∈ k') l.
Proof.
  intros Hk. induction l as [|x l IH]; [done|].
  rewrite !filter_cons. destruct (decide (x ∈ k)) as [Hx|Hx].
  - rewrite decide_True by by apply Hk. by constructor.
  - destruct (decide (x ∈ k')); [by constructor|done].
Qed.

Lemma occurrences_filter_in (s : string) (l k : list string) :
  occurrences s (filter (λ x, x ∈ k) l)
  = if decide (s ∈ k) then occurrences s l else 0.
Proof.
  induction l as [|x l IH].
  - by destruct (decide (s ∈ k)).
  - rewrite filter_cons. destruct (decide (x ∈ k)) as [Hx|Hx].
    + rewrite !occurrences_cons, IH. destruct (decide (s ∈ k)) as [|Hs]; [done|].
      rewrite decide_False; [done|]. by intros ->.
    + rewrite IH, occurrences_cons. destruct (decide (s ∈ k)) as [Hs|]; [|done].
      rewrite decide_False; [done|]. by intros ->.
Qed.

Lemma count_all_app (ws vs : list string) (d : gmap string Z) :
  count_all (ws ++ vs) d = count_all vs (count_all ws d).
Proof. unfold count_all. apply foldl_app. Qed.

(** Counting two lists of words into a table gives the same table in either
    order. *)
Lemma count_all_comm (ws vs : list string) (d : gmap string Z) :
  count_all vs (count_all ws d) = count_all ws (count_all vs d).
Proof.
  rewrite <- !count_all_app. apply count_all_Permutation, Permutation_app_comm.
Qed.

Lemma total_count_insert (w : string) (c : Z) (d : gmap string Z) :
  d !! w = None → total_count (<[w := c]> d) = c + total_count d.
Proof.
  intros Hw. unfold total_count.
  rewrite map_fold_insert_L; [done| |done]. intros. lia.
Qed.

Lemma total_count_increment (w : string) (d : gmap string Z) :
  total_count (increment w d) = total_count d + 1.
Proof.
  unfold increment. destruct (d !! w) as [c|] eqn:Hw.
  - rewrite <- (insert_delete_eq d w (c + 1)).
    rewrite total_count_insert by apply lookup_delete_eq.
    rewrite <- (insert_id d w c Hw) at 2.
    rewrite <- (insert_delete_eq d w c).
    rewrite total_count_insert by apply lookup_delete_eq. lia.
  - rewrite total_count_insert by done. lia.
Qed.

Lemma total_count_count_all (ws : list string) (d : gmap string Z) :
  total_count (count_all ws d) = total_count d + Z.of_nat (length ws).
Proof.
  unfold count_all. revert d. induction ws as [|w ws IH]; intros d; simpl; [lia|].
  rewrite IH, total_count_increment. lia.
Qed.

(** Every weight of the table keeps a score of 0 at 0. *)
Lemma position_weight_zero (distribution : float) :
  (0 * position_weight distribution)%float = 0%float.
Proof.
  unfold position_weight.
  repeat (destruct (_ && _)%bool; [reflexivity|]). reflexivity.
Qed.

(** [float] of a positive length below 2^53 is a positive finite number. *)
Lemma Prim2SF_float_of_int_positive (z : Z) :
  0 < z < 2 ^ 53 →
  ∃ (m : positive) (e : Z), Prim2SF (float_of_int z) = S754_finite false m e.
Proof.
  intros Hz. destruct (binary_normalize_exact z Hz) as (m & e & Hn & _).
  exists m, e. unfold float_of_int.
  assert (binary_normalize prec emax z 0 false
          = Prim2SF (of_uint63 (Uint63.of_Z z))) as Hof.
  { rewrite FloatAxioms.of_uint63_spec, Uint63.of_Z_spec, Z.mod_small; [done|].
    change wB with (2 ^ 63).
    assert (2 ^ 53 ≤ 2 ^ 63) by (apply Z.pow_le_mono_r; lia). lia. }
  by rewrite Hof, FloatAxioms.SF2Prim_Prim2SF, <- Hof.
Qed.

(** ** The class on concrete articles *)

#[local] Open Scope string_scope.

Lemma sentence_score_without_words_witness :
  @__sentence_score Toy.collaborators "1 2 3." (initial ∅)
  = (Ok 0%float, initial ∅)
  ∧ ∀ total : float,
      float_truediv total (Z.of_nat (length (Toy.tokenize_word "1 2 3." true)))
      = Raise ZeroDivisionError.
Proof.
  apply (@sentence_score_without_words Toy.collaborators "1 2 3." (initial ∅)).
  reflexivity.
Defined.

Lemma get_top_sentences_nonpositive_witness :
  get_top_sentences 0 Toy.after_cats = (Ok [], Toy.after_cats)
  ∧ get_top_sentences (-50) Toy.after_cats
    = (Ok (filter (λ sentence,
               sentence ∈ take (length (ranked_sentences (self Toy.after_cats))
                                - Z.to_nat (- -2))
                            (ranked_sentences (self Toy.after_cats)))
             (sentences (self Toy.after_cats))), Toy.after_cats).
Proof.
  assert (Z.of_nat (length (sentences (self Toy.after_cats))) < 2 ^ 63) as Hlen
    by (vm_compute; reflexivity).
  split.
  - apply (proj1 (get_top_sentences_nonpositive 0 Toy.after_cats Hlen)).
    reflexivity.
  - apply (proj2 (get_top_sentences_nonpositive (-50) Toy.after_cats Hlen) (-2));
      [vm_compute; reflexivity|reflexivity].
Defined.

(** C4, counterexample. On the example article of the spec, constructed
    first in its process, [get_top_sentences(-50)] computes [n = -2] and
    returns two of the four sentences. *)
Lemma get_top_sentences_negative_percentage :
  (-50 <=? 0)%float = true
  ∧ int_of_float (-50 / 100
                  * float_of_int (Z.of_nat (length (sentences (self Toy.after_cats)))))%float
    = Ok (-2)
  ∧ get_top_sentences (-50) Toy.after_cats
    = (Ok ["Cats chase mice."; "Mice run fast."], Toy.after_cats).
Proof. split; [reflexivity|]. vm_compute. done. Qed.

(** C1, on a second construction. After [ArticleSummarizer(cats, 0, df)] and
    [ArticleSummarizer(dogs, 1, df)] in one process, the second instance has
    two sentences and ranks six: the four pairs of the first article are
    still in the class-level list. *)
Lemma second_construction_ranks_earlier_sentences :
  sentences (self Toy.after_dogs) = ["Dogs bark."; "1 2 3."]
  ∧ ranked_sentences (self Toy.after_dogs)
    = ["Dogs bark."; "Cats chase mice."; "Mice run fast."; "Dogs chase cats.";
       "Birds fly high."; "1 2 3."].
Proof. vm_compute. done. Qed.

(** C2, on a second construction. The second article does not contain
    "chase", yet the table its scores are computed from counts it twice, as
    the first article left it; the term frequency of "bark" is 1/14 where
    the article alone gives 1/2. *)
Lemma word_frequency_carried_over :
  ("chase" ∉ @article_words Toy.collaborators (sentences (self Toy.after_dogs)))
  ∧ cls_word_frequency Toy.after_cats !! "chase" = Some 2
  ∧ cls_word_frequency Toy.after_dogs !! "chase" = Some 2
  ∧ cls_word_frequency Toy.only_dogs !! "chase" = None
  ∧ Toy.tf "bark" (cls_word_frequency Toy.after_dogs) = (1 / 14)%float
  ∧ Toy.tf "bark" (cls_word_frequency Toy.only_dogs) = 0.5%float.
Proof.
  split; [|vm_compute; done].
  vm_compute. intros H. repeat (apply elem_of_cons in H as [H|H]; [discriminate|]).
  by apply elem_of_nil in H.
Qed.

(** C3, on a second construction. "Dogs bark." is sentence 0 of the 2
    sentences of its article, a position of weight 0.17; its pair is the
    fifth of the six pairs of the class-level list, and its score was
    multiplied by 0.06, the weight of 4/6. *)
Lemma second_construction_weighs_by_list_index :
  let raw := @raw_score Toy.collaborators
               (cls_word_frequency Toy.after_dogs) 2
               (document_frequency Toy.after_dogs) "Dogs bark." in
  sentences (self Toy.after_dogs) !! 0%nat = Some "Dogs bark."
  ∧ length (sentences (self Toy.after_dogs)) = 2%nat
  ∧ cls_sentence_scores Toy.after_dogs !! 4%nat
    = Some ((raw * 0.06)%float, "Dogs bark.")
  ∧ table_weight (float_of_int 0 / float_of_int 2) = 0.17%float
  ∧ table_weight (float_of_int 4 / float_of_int 6) = 0.06%float.
Proof. vm_compute. done. Qed.

(** C5, on a second construction. [get_top_sentences(100)] on the second
    instance computes [n = 2] and slices a ranking of six: the result lacks
    the article's second sentence. *)
Lemma get_top_sentences_100_after_second_construction :
  sentences (self Toy.after_dogs) = ["Dogs bark."; "1 2 3."]
  ∧ get_top_sentences 100 Toy.after_dogs = (Ok ["Dogs bark."], Toy.after_dogs).
Proof. split; [vm_compute; done|]. vm_compute. done. Qed.

(** A percentage of [float('inf')] makes [int] raise. *)
Lemma get_top_sentences_infinity :
  get_top_sentences infinity Toy.after_cats = (Raise OverflowError, Toy.after_cats).
Proof. vm_compute. reflexivity. Qed.

(** ** Further properties of the class *)

Section Further.
Context `{Collaborators}.

(** X1. A construction returns: no statement of [__init__] raises, whatever the
    collaborators return and whatever state the process is in. *)
Theorem construct_returns (article : string) (d : Z) (st : state) :
  (construct article d st).1 = Ok ().
Proof. by rewrite run_construct. Qed.

(** X2. On the first construction of a process, when the class-level list
    is still empty, [ranked_sentences] has the length of [sentences] and is a
    rearrangement of it. *)
Theorem first_construction_ranks_the_article (article : string) (d : Z) (st : state) :
  cls_sentence_scores st = [] →
  let st' := (construct article d st).2 in
  length (ranked_sentences (self st')) = length (sentences (self st'))
  ∧ ranked_sentences (self st') ≡ₚ sentences (self st').
Proof.
  intros Hst. cbn zeta. rewrite construct_state. split.
  - by rewrite construct_length_ranked, Hst.
  - by apply construct_first_ranked.
Qed.

(** X3. On the first construction of a process the sentence at index [i] of
    the [N] sentences of the article has its raw score multiplied by the table
    weight of [i / N], and [get_top_sentences(100)] returns the article. *)
Theorem first_construction_weights_and_selects (article : string) (d : Z)
    (st : state) :
  cls_sentence_scores st = [] →
  Z.of_nat (length (tokenize_sentence article)) < 2 ^ 53 →
  let st' := (construct article d st).2 in
  (∀ i sentence,
     tokenize_sentence article !! i = Some sentence →
     cls_sentence_scores st' !! i
     = Some ((raw_score (cls_word_frequency st') (d + 1) (document_frequency st') sentence
              * table_weight
                  (float_of_int (Z.of_nat i)
                   / float_of_int (Z.of_nat (length (tokenize_sentence article)))))%float,
             sentence))
  ∧ get_top_sentences 100 st' = (Ok (sentences (self st')), st').
Proof.
  intros Hst Hlen. cbn zeta. rewrite construct_state. split.
  - intros i sentence Hi. by apply construct_first_weights.
  - by apply get_top_sentences_100_first_construction.
Qed.

(** X4. When no final score is a NaN, two pairs with equal final scores stand
    in the instance's sorted list in the order they have in the list that was
    sorted. *)
Theorem ranking_keeps_order_of_ties (article : string) (d : Z) (st : state)
    (a b : cell) (l1 l2 l3 : list cell) :
  Forall (λ c : cell, is_number c.1 = true)
    (cls_sentence_scores (construct article d st).2) →
  (a.1 =? b.1)%float = true →
  cls_sentence_scores (construct article d st).2 = (l1 ++ a :: l2 ++ b :: l3)%list →
  ∃ k1 k2 k3,
    sentence_scores (self (construct article d st).2)
    = Some (k1 ++ a :: k2 ++ b :: k3)%list.
Proof.
  rewrite construct_state. intros _ Hab Hl.
  destruct (sorted_keeps_order itemgetter0 true a b l1 l2 l3 Hab) as (k1 & k2 & k3 & Hk).
  exists k1, k2, k3. unfold constructed in *.
  cbn [self sentence_scores cls_sentence_scores] in *. rewrite Hl. f_equal. exact Hk.
Qed.

End Further.

(** X5. The if-chain of [__weigh_sentences_by_position] is the table of the
    spec: every normalized position, also a NaN or one outside [0, 1), gets
    the weight of the first bucket that holds it, and 0.15 when none does;
    for lists of up to 256 pairs the bucket is that of the exact quotient. *)
Theorem position_weight_is_the_table :
  (∀ position, position_weight position = table_weight position)
  ∧ ∀ i N : nat,
      (i < N ≤ 256)%nat →
      table_weight (float_of_int (Z.of_nat i) / float_of_int (Z.of_nat N))
      = exact_weight (Z.of_nat i) (Z.of_nat N).
Proof.
  split; [apply position_weight_table|].
  intros i N HiN. rewrite <- position_weight_table. by apply position_weight_exact.
Qed.

Lemma first_construction_ranks_the_article_witness :
  length (ranked_sentences (self Toy.after_cats))
  = length (sentences (self Toy.after_cats))
  ∧ ranked_sentences (self Toy.after_cats) ≡ₚ sentences (self Toy.after_cats).
Proof.
  apply (@first_construction_ranks_the_article Toy.collaborators Toy.cats 0 (initial ∅)).
  reflexivity.
Defined.

Lemma first_construction_weights_and_selects_witness :
  get_top_sentences 100 Toy.after_cats
  = (Ok (sentences (self Toy.after_cats)), Toy.after_cats).
Proof.
  apply (proj2 (@first_construction_weights_and_selects Toy.collaborators Toy.cats 0
                  (initial ∅) eq_refl ltac:(vm_compute; reflexivity))).
Defined.

Lemma ranking_keeps_order_of_ties_witness :
  ∃ k1 k2 k3,
    sentence_scores (self (@construct Toy.collaborators "1. 2." 0 (initial ∅)).2)
    = Some (k1 ++ (0%float, "1.") :: k2 ++ (0%float, "2.") :: k3)%list.
Proof.
  apply (@ranking_keeps_order_of_ties Toy.collaborators "1. 2." 0 (initial ∅)
           (0%float, "1.") (0%float, "2.") [] [] []).
  - vm_compute. repeat constructor.
  - reflexivity.
  - vm_compute. reflexivity.
Defined.

Lemma ranking_is_stable_witness :
  ∃ ranked : list cell,
    sentence_scores (self (@construct Toy.collaborators "1. 2." 0 (initial ∅)).2)
    = Some ranked
    ∧ ranked_sentences (self (@construct Toy.collaborators "1. 2." 0 (initial ∅)).2)
      = snd <$> ranked
    ∧ ranked
      = sorted itemgetter0 true
          (cls_sentence_scores (@construct Toy.collaborators "1. 2." 0 (initial ∅)).2)
    ∧ with_key itemgetter0 0%float ranked
      = with_key itemgetter0 0%float
          (cls_sentence_scores (@construct Toy.collaborators "1. 2." 0 (initial ∅)).2)
    ∧ snd <$> cls_sentence_scores
                (@construct Toy.collaborators "1. 2." 0 (initial ∅)).2
      = ((snd <$> cls_sentence_scores (initial ∅))
         ++ sentences (self (@construct Toy.collaborators "1. 2." 0 (initial ∅)).2))%list
    ∧ ∀ (i j : nat) (a b : cell),
        (i < j)%nat → ranked !! i = Some a → ranked !! j = Some b →
        (a.1 <? b.1)%float = false.
Proof.
  apply (@ranking_is_stable Toy.collaborators "1. 2." 0 (initial ∅) 0%float).
  vm_compute. repeat constructor.
Defined.

(** ** The ranking, the class list and the tables in every state *)

#[local] Close Scope string_scope.

Section Ranking.
Context `{Collaborators}.

(** X6. When no final score is a NaN, the list the instance binds is in
    non-increasing order of score: no pair has a score lower than that of a
    pair that stands after it; [ranked_sentences] is the list of its
    sentences. *)
Theorem ranked_in_descending_order (article : string) (d : Z) (st : state) :
  Forall (λ c : cell, is_number c.1 = true)
    (cls_sentence_scores (construct article d st).2) →
  ∃ ranked : list cell,
    sentence_scores (self (construct article d st).2) = Some ranked
    ∧ ranked_sentences (self (construct article d st).2) = snd <$> ranked
    ∧ ∀ (i j : nat) (a b : cell),
        (i < j)%nat → ranked !! i = Some a → ranked !! j = Some b →
        (a.1 <? b.1)%float = false.
Proof.
  rewrite construct_state. intros Hnum.
  eexists. split; [reflexivity|]. split; [reflexivity|].
  intros i j a b Hij Hi Hj.
  apply (StronglySorted_lookup (descending itemgetter0) _ i j a b
           (sorted_descending itemgetter0 _ Hnum) Hij Hi Hj).
Qed.

(** X7. On the first construction of a process, for an article whose
    sentences are pairwise different and whose scores are numbers, when [int]
    gives [n >= 0] the call returns [min(n, len(sentences))] sentences, those
    of the first [n] pairs of the ranking, and no sentence it returns has a
    lower score than one it leaves out. *)
Theorem get_top_sentences_selects_best (article : string) (d : Z) (st : state)
    (percentage : float) (n : Z) :
  cls_sentence_scores st = [] →
  NoDup (tokenize_sentence article) →
  Forall (λ c : cell, is_number c.1 = true)
    (cls_sentence_scores (construct article d st).2) →
  int_of_float (percentage / 100
                * float_of_int (Z.of_nat (length (tokenize_sentence article))))%float
  = Ok n →
  0 ≤ n →
  ∃ (ranked : list cell) (result : list string),
    sentence_scores (self (construct article d st).2) = Some ranked
    ∧ get_top_sentences percentage (construct article d st).2
      = (Ok result, (construct article d st).2)
    ∧ length result = Nat.min (Z.to_nat n) (length (tokenize_sentence article))
    ∧ result ≡ₚ take (Z.to_nat n) (snd <$> ranked)
    ∧ ∀ a b : cell,
        a ∈ ranked → b ∈ ranked → a.2 ∈ result → b.2 ∉ result →
        (a.1 <? b.1)%float = false.
Proof.
  rewrite construct_state. intros Hst Hnd Hnum Hn Hn0.
  set (st' := constructed article d st) in *.
  set (ranked := sorted itemgetter0 true (cls_sentence_scores st')).
  assert (ranked_sentences (self st') = snd <$> ranked) as Hrs by done.
  assert (sentences (self st') = tokenize_sentence article) as Hss by done.
  assert (snd <$> ranked ≡ₚ tokenize_sentence article) as Hperm.
  { rewrite <- Hrs, <- Hss. by apply construct_first_ranked. }
  assert (NoDup (snd <$> ranked)) as Hndr by by rewrite Hperm.
  exists ranked, (filter (λ s, s ∈ take (Z.to_nat n) (snd <$> ranked))
                    (tokenize_sentence article)).
  assert (filter (λ s, s ∈ take (Z.to_nat n) (snd <$> ranked))
            (tokenize_sentence article)
          ≡ₚ take (Z.to_nat n) (snd <$> ranked)) as Hres.
  { apply NoDup_Permutation.
    - by apply NoDup_filter.
    - eapply sublist_NoDup; [exact Hndr|apply sublist_take].
    - intros s. rewrite list_elem_of_filter. split; [by intros [? _]|].
      intros Hs. split; [done|]. rewrite <- Hperm.
      eapply elem_of_sublist; [exact Hs|apply sublist_take]. }
  split; [done|]. split.
  { rewrite (run_get_top_sentences percentage st' n) by (by rewrite Hss).
    rewrite Hrs, Hss. unfold slice_to.
    destruct (Z.ltb_spec n 0); [lia|done]. }
  split.
  { rewrite Hres, length_take, <- (Permutation_length Hperm). done. }
  split; [done|].
  intros a b Ha Hb Har Hbr.
  rewrite Hres in Har. rewrite Hres in Hbr.
  apply list_elem_of_lookup in Ha as [i Hi], Hb as [j Hj].
  apply elem_of_take in Har as (i' & Hi' & Hlt).
  assert (i' = i) as ->.
  { eapply NoDup_lookup; [exact Hndr|exact Hi'|]. by apply list_lookup_fmap_Some_2. }
  assert (Z.to_nat n ≤ j)%nat as Hj'.
  { destruct (Nat.le_gt_cases (Z.to_nat n) j) as [|Hgt]; [done|].
    exfalso. apply Hbr, elem_of_take. exists j. split; [|done].
    by apply list_lookup_fmap_Some_2. }
  apply (StronglySorted_lookup (descending itemgetter0) ranked i j a b); try done.
  - by apply sorted_descending.
  - lia.
Qed.

(** X8. A construction removes no pair from the class list: the list holds
    the sentences it held, then those of the article; [ranked_sentences] is a
    rearrangement of all of them; and the score of every pair of an earlier
    construction is multiplied once more, by the weight of its index over the
    new length of the list. *)
Theorem construct_keeps_earlier_pairs (article : string) (d : Z) (st : state) :
  let st' := (construct article d st).2 in
  snd <$> cls_sentence_scores st'
  = ((snd <$> cls_sentence_scores st) ++ tokenize_sentence article)%list
  ∧ ranked_sentences (self st') ≡ₚ snd <$> cls_sentence_scores st'
  ∧ ∀ (i : nat) (c : cell),
      cls_sentence_scores st !! i = Some c →
      cls_sentence_scores st' !! i
      = Some ((c.1 * position_weight
                       (float_of_int (Z.of_nat i)
                        / float_of_int
                            (Z.of_nat (length (cls_sentence_scores st)
                                       + length (tokenize_sentence article)))))%float,
              c.2).
Proof.
  cbn zeta. rewrite construct_state.
  split; [apply construct_cls_sentences|]. split.
  - unfold constructed. cbn [self ranked_sentences cls_sentence_scores].
    apply fmap_Permutation, sorted_Permutation.
  - intros i c Hi. unfold constructed. cbn [cls_sentence_scores]. unfold weighted.
    rewrite list_lookup_imap, lookup_app_l by (by eapply lookup_lt_Some).
    match goal with
    | |- _ <$> ?x = _ => replace x with (Some c) by (symmetry; exact Hi)
    end.
    cbn [fmap option_fmap option_map].
    by rewrite length_app, length_fmap.
Qed.

(** X9. A sentence of the article without word token has the final score 0,
    at whatever position it stands and whatever the process did before. *)
Theorem sentence_without_words_scores_zero (article : string) (d : Z) (st : state)
    (i : nat) (sentence : string) :
  tokenize_sentence article !! i = Some sentence →
  tokenize_word sentence true = [] →
  cls_sentence_scores (construct article d st).2
    !! (length (cls_sentence_scores st) + i)%nat
  = Some (0%float, sentence).
Proof.
  intros Hi Hw. rewrite construct_state. unfold constructed.
  cbn [cls_sentence_scores]. unfold weighted.
  rewrite list_lookup_imap.
  rewrite lookup_app_r by apply Nat.le_add_r.
  rewrite Nat.add_sub'.
  rewrite list_lookup_fmap, Hi. cbn [fmap option_fmap option_map fst snd].
  unfold raw_score. rewrite Hw.
  rewrite bool_decide_eq_true_2 by done.
  by rewrite position_weight_zero.
Qed.

(** X10. A construction adds to the entry of every word of the article in the
    class-level word-frequency table its number of occurrences in the
    article (an absent entry counting as 0) and leaves every other entry as
    it was: the sum of the table grows by the number of word tokens of the
    article, and that of the document-frequency table by the number of
    distinct ones. *)
Theorem construct_adds_word_counts (article : string) (d : Z) (st : state) :
  let st' := (construct article d st).2 in
  let words := article_words (tokenize_sentence article) in
  (∀ w : string,
     cls_word_frequency st' !! w
     = if decide (w ∈ words)
       then Some (default 0 (cls_word_frequency st !! w) + occurrences w words)
       else cls_word_frequency st !! w)
  ∧ total_count (cls_word_frequency st')
    = total_count (cls_word_frequency st) + Z.of_nat (length words)
  ∧ total_count (document_frequency st')
    = total_count (document_frequency st)
      + Z.of_nat (size (list_to_set words : gset string)).
Proof.
  cbn zeta. rewrite construct_state. unfold constructed.
  cbn [cls_word_frequency document_frequency].
  split; [intros w; apply lookup_count_all|].
  by rewrite !total_count_count_all.
Qed.

(** X11. When every count of the two tables is at least 1 before a
    construction, so is every count after it, and every word of the article
    is a key of both tables. *)
Theorem construct_keeps_counts_positive (article : string) (d : Z) (st : state) :
  (∀ w c, cls_word_frequency st !! w = Some c → 1 ≤ c) →
  (∀ w c, document_frequency st !! w = Some c → 1 ≤ c) →
  let st' := (construct article d st).2 in
  (∀ w c, cls_word_frequency st' !! w = Some c → 1 ≤ c)
  ∧ (∀ w c, document_frequency st' !! w = Some c → 1 ≤ c)
  ∧ ∀ w, w ∈ article_words (tokenize_sentence article) →
         is_Some (cls_word_frequency st' !! w)
         ∧ is_Some (document_frequency st' !! w).
Proof.
  intros Hwf Hdf. cbn zeta. rewrite construct_state. unfold constructed.
  cbn [cls_word_frequency document_frequency].
  split; [|split].
  - intros w c. rewrite lookup_count_all. case_decide as Hw; [|by eauto].
    intros [= <-]. pose proof (occurrences_elem_of _ _ Hw).
    destruct (cls_word_frequency st !! w) as [c|] eqn:Hc; simpl; [|lia].
    specialize (Hwf w c Hc). lia.
  - intros w c. rewrite lookup_count_all. case_decide as Hw; [|by eauto].
    intros [= <-]. pose proof (occurrences_elem_of _ _ Hw).
    destruct (document_frequency st !! w) as [c|] eqn:Hc; simpl; [|lia].
    specialize (Hdf w c Hc). lia.
  - intros w Hw. rewrite !lookup_count_all.
    rewrite decide_True by done.
    rewrite decide_True by (by apply elem_of_elements, elem_of_list_to_set).
    eauto.
Qed.

(** X12. An article without word token, the empty article among them, leaves
    both tables as they were. *)
Theorem construct_without_words (article : string) (d : Z) (st : state) :
  article_words (tokenize_sentence article) = [] →
  let st' := (construct article d st).2 in
  cls_word_frequency st' = cls_word_frequency st
  ∧ document_frequency st' = document_frequency st.
Proof.
  intros Hw. cbn zeta. rewrite construct_state. unfold constructed.
  cbn [cls_word_frequency document_frequency]. rewrite Hw.
  split; [done|]. by rewrite list_to_set_nil, elements_empty.
Qed.

(** X13. The two tables do not depend on the order of two constructions, nor
    on the document numbers passed. *)
Theorem constructions_commute_on_tables (a1 a2 : string) (d1 d2 d1' d2' : Z)
    (st : state) :
  let st12 := (construct a2 d2 (construct a1 d1 st).2).2 in
  let st21 := (construct a1 d1' (construct a2 d2' st).2).2 in
  cls_word_frequency st12 = cls_word_frequency st21
  ∧ document_frequency st12 = document_frequency st21.
Proof.
  cbn zeta. rewrite !construct_state. unfold constructed.
  cbn [cls_word_frequency document_frequency].
  split; apply count_all_comm.
Qed.

End Ranking.

(** X14. Whatever [get_top_sentences] returns is a subsequence of
    [sentences], in article order; it holds only sentences of
    [ranked_sentences], and a sentence that occurs several times in the
    article is returned with all its occurrences or with none. *)
Theorem get_top_sentences_keeps_article_order (percentage : float) (st : state)
    (result : list string) :
  (get_top_sentences percentage st).1 = Ok result →
  result `sublist_of` sentences (self st)
  ∧ (∀ s, s ∈ result → s ∈ ranked_sentences (self st))
  ∧ ∀ s, occurrences s result = occurrences s (sentences (self st))
         ∨ occurrences s result = 0.
Proof.
  intros Hres.
  destruct (int_of_float
              (percentage / 100
               * float_of_int (Z.of_nat (length (sentences (self st))))))
    as [n|e] eqn:Hn.
  - rewrite (run_get_top_sentences _ _ _ Hn) in Hres.
    cbn [fst] in Hres. injection Hres as <-.
    split; [apply sublist_filter|]. split.
    + intros s [Hs _]%list_elem_of_filter. by apply (slice_to_subseteq _ n).
    + intros s. rewrite occurrences_filter_in. case_decide; auto.
  - unfold get_top_sentences, mbind, M_bind, read, lift, mret, M_ret in Hres.
    by rewrite Hn in Hres.
Qed.

(** X15. In one state, a call whose [n] is not negative returns a
    subsequence of what a call with a larger [n] returns. *)
Theorem get_top_sentences_grows_with_n (p p' : float) (st : state) (n n' : Z) :
  int_of_float (p / 100 * float_of_int (Z.of_nat (length (sentences (self st)))))%float
  = Ok n →
  int_of_float (p' / 100 * float_of_int (Z.of_nat (length (sentences (self st)))))%float
  = Ok n' →
  0 ≤ n ≤ n' →
  ∃ result result',
    get_top_sentences p st = (Ok result, st)
    ∧ get_top_sentences p' st = (Ok result', st)
    ∧ result `sublist_of` result'.
Proof.
  intros Hn Hn' Hle. do 2 eexists.
  split; [by apply run_get_top_sentences|].
  split; [by apply run_get_top_sentences|].
  by apply filter_in_mono, slice_to_mono.
Qed.

(** X16. A NaN percentage makes [int] raise ValueError, in every state. *)
Theorem get_top_sentences_nan (percentage : float) (st : state) :
  is_number percentage = false →
  get_top_sentences percentage st = (Raise ValueError, st).
Proof.
  intros Hnan%not_is_number_nan. unfold get_top_sentences.
  unfold mbind, M_bind, read, lift, mret, M_ret.
  unfold int_of_float.
  by rewrite FloatAxioms.mul_spec, FloatAxioms.div_spec, Hnan.
Qed.

(** X17. An infinite percentage makes [int] raise: OverflowError when the
    article has a sentence, ValueError when it has none (infinity times 0 is
    a NaN). *)
Theorem get_top_sentences_infinite (percentage : float) (st : state) :
  percentage = infinity ∨ percentage = neg_infinity →
  Z.of_nat (length (sentences (self st))) < 2 ^ 53 →
  get_top_sentences percentage st
  = (Raise (if bool_decide (sentences (self st) = []) then ValueError
            else OverflowError), st).
Proof.
  intros Hp Hlen. unfold get_top_sentences.
  unfold mbind, M_bind, read, lift, mret, M_ret.
  assert (∃ s, Prim2SF (percentage / 100) = S754_infinity s) as [s Hs].
  { destruct Hp as [-> | ->]; [by exists false | by exists true]. }
  unfold int_of_float. rewrite FloatAxioms.mul_spec, Hs.
  destruct (sentences (self st)) as [|x l] eqn:Hl.
  - done.
  - rewrite bool_decide_eq_false_2 by done.
    destruct (Prim2SF_float_of_int_positive (Z.of_nat (length (x :: l))))
      as (m & e & ->); [simpl in *; lia|]. done.
Qed.


#[local] Open Scope string_scope.

Lemma ranked_in_descending_order_witness :
  ∃ ranked : list cell,
    sentence_scores (self Toy.after_cats) = Some ranked
    ∧ ranked_sentences (self Toy.after_cats) = snd <$> ranked
    ∧ ∀ (i j : nat) (a b : cell),
        (i < j)%nat → ranked !! i = Some a → ranked !! j = Some b →
        (a.1 <? b.1)%float = false.
Proof.
  apply (@ranked_in_descending_order Toy.collaborators Toy.cats 0 (initial ∅)).
  vm_compute. repeat constructor.
Defined.

Lemma get_top_sentences_selects_best_witness :
  ∃ (ranked : list cell) (result : list string),
    sentence_scores (self Toy.after_cats) = Some ranked
    ∧ get_top_sentences 50 Toy.after_cats = (Ok result, Toy.after_cats)
    ∧ length result = 2%nat
    ∧ result ≡ₚ take 2 (snd <$> ranked)
    ∧ ∀ a b : cell,
        a ∈ ranked → b ∈ ranked → a.2 ∈ result → b.2 ∉ result →
        (a.1 <? b.1)%float = false.
Proof.
  apply (@get_top_sentences_selects_best Toy.collaborators Toy.cats 0 (initial ∅)
           50 2).
  - reflexivity.
  - apply (bool_decide_unpack _). vm_compute. reflexivity.
  - vm_compute. repeat constructor.
  - vm_compute. reflexivity.
  - lia.
Defined.

Lemma sentence_without_words_scores_zero_witness :
  cls_sentence_scores Toy.after_dogs !! 5%nat = Some (0%float, "1 2 3.").
Proof.
  apply (@sentence_without_words_scores_zero Toy.collaborators Toy.dogs 1
           Toy.after_cats 1 "1 2 3.").
  - vm_compute. reflexivity.
  - vm_compute. reflexivity.
Defined.

Lemma construct_keeps_counts_positive_witness :
  (∀ w c,
     cls_word_frequency (@construct Toy.collaborators Toy.cats 0 (initial ∅)).2 !! w
     = Some c → (1 ≤ c)%Z)
  ∧ (∀ w c,
       document_frequency (@construct Toy.collaborators Toy.cats 0 (initial ∅)).2 !! w
       = Some c → (1 ≤ c)%Z)
  ∧ ∀ w,
      w ∈ @article_words Toy.collaborators
            (@tokenize_sentence Toy.collaborators Toy.cats) →
      is_Some
        (cls_word_frequency (@construct Toy.collaborators Toy.cats 0 (initial ∅)).2
           !! w)
      ∧ is_Some
          (document_frequency (@construct Toy.collaborators Toy.cats 0 (initial ∅)).2
             !! w).
Proof.
  apply (@construct_keeps_counts_positive Toy.collaborators Toy.cats 0 (initial ∅)).
  - intros w c. cbn [initial cls_word_frequency]. by rewrite lookup_empty.
  - intros w c. cbn [initial document_frequency]. by rewrite lookup_empty.
Defined.

Lemma construct_without_words_witness :
  cls_word_frequency (@construct Toy.collaborators "1 2 3." 1 Toy.after_cats).2
  = cls_word_frequency Toy.after_cats
  ∧ document_frequency (@construct Toy.collaborators "1 2 3." 1 Toy.after_cats).2
    = document_frequency Toy.after_cats.
Proof.
  apply (@construct_without_words Toy.collaborators "1 2 3." 1 Toy.after_cats).
  vm_compute. reflexivity.
Defined.

Lemma get_top_sentences_keeps_article_order_witness :
  ["Cats chase mice."; "Mice run fast."] `sublist_of` sentences (self Toy.after_cats)
  ∧ (∀ s, s ∈ ["Cats chase mice."; "Mice run fast."]
          → s ∈ ranked_sentences (self Toy.after_cats))
  ∧ ∀ s, occurrences s ["Cats chase mice."; "Mice run fast."]
         = occurrences s (sentences (self Toy.after_cats))
         ∨ occurrences s ["Cats chase mice."; "Mice run fast."] = 0.
Proof.
  apply (get_top_sentences_keeps_article_order 50 Toy.after_cats).
  vm_compute. reflexivity.
Defined.

Lemma get_top_sentences_grows_with_n_witness :
  ∃ result result',
    get_top_sentences 25 Toy.after_cats = (Ok result, Toy.after_cats)
    ∧ get_top_sentences 50 Toy.after_cats = (Ok result', Toy.after_cats)
    ∧ result `sublist_of` result'.
Proof.
  apply (get_top_sentences_grows_with_n 25 50 Toy.after_cats 1 2).
  - vm_compute. reflexivity.
  - vm_compute. reflexivity.
  - lia.
Defined.

Lemma get_top_sentences_nan_witness :
  get_top_sentences nan Toy.after_cats = (Raise ValueError, Toy.after_cats).
Proof. apply (get_top_sentences_nan nan Toy.after_cats). reflexivity. Defined.

Lemma get_top_sentences_infinite_witness :
  get_top_sentences neg_infinity Toy.after_cats
  = (Raise (if bool_decide (sentences (self Toy.after_cats) = []) then ValueError
            else OverflowError), Toy.after_cats).
Proof.
  apply (get_top_sentences_infinite neg_infinity Toy.after_cats).
  - by right.
  - vm_compute. reflexivity.
Defined.
